(** * Quackle: the fixed-length letter string and the rack built on it

    A shallow embedding of [fixedstring.h] (class [FixedLengthString]) and of
    [rack.h] (class [Rack]), with the properties the specification states
    about them.

    Conventions of the embedding.
    - A [char] is its integer value, a [Z]; ['\0'] is [0].
    - [m_data] is the backing array, a list of cells; the class declares it
      as [char m_data[maxSize]], so a well-typed object has exactly
      [maxSize] cells ([array_ok]).
    - [m_end] is kept as the offset [m_end - m_data]; it is a [Z] because
      the cursor can leave the array (the corruption checks exist for that).
      [m_data] is the address of a member array and is never null, so in the
      tests [m_end == nullptr || m_end < m_data || ...] the first disjunct
      entails the second and the offset comparison alone is kept.
    - A call either returns ([Ok]), ends the process ([Abort]: a failed
      [assert] or [quackle_fls_abort]), or touches memory outside the object
      it was given ([Undefined]).  Assertions are compiled in. *)

From Stdlib Require Import ZArith Lia.
From stdpp Require Import base option list.

Local Open Scope Z_scope.

(** ** Outcomes of a call *)

Inductive outcome (A : Type) : Type :=
| Ok (a : A)
| Abort
| Undefined.
Arguments Ok {A} a.
Arguments Abort {A}.
Arguments Undefined {A}.

#[global] Instance outcome_ret : MRet outcome := λ A a, Ok a.
#[global] Instance outcome_bind : MBind outcome := λ A B f m,
  match m with
  | Ok a => f a
  | Abort => Abort
  | Undefined => Undefined
  end.

(** [assert(b)] of <cassert>. *)
Definition assert (b : bool) : outcome unit :=
  if b then Ok tt else Abort.

(** ** Integer conversions *)

(** Conversion to [unsigned int] ([size_type]). *)
Definition to_unsigned (z : Z) : Z := z mod 2 ^ 32.
(** Conversion to [int]. *)
Definition to_int (z : Z) : Z := (z + 2 ^ 31) mod 2 ^ 32 - 2 ^ 31.

(** ** Memory primitives over an array of cells *)

(** [a[i]] read. *)
Definition load (a : list Z) (i : Z) : outcome Z :=
  if (0 <=? i) && (i <? Z.of_nat (List.length a)) then
    match a !! Z.to_nat i with
    | Some v => Ok v
    | None => Undefined
    end
  else Undefined.

(** [a[i] = v]. *)
Definition store (a : list Z) (i : Z) (v : Z) : outcome (list Z) :=
  if (0 <=? i) && (i <? Z.of_nat (List.length a)) then
    Ok (<[Z.to_nat i := v]> a)
  else Undefined.

(** [memcpy(dst + q, src + p, n)]: both ranges must lie in their arrays. *)
Definition memcpy (dst : list Z) (q : Z) (src : list Z) (p : Z) (n : Z)
  : outcome (list Z) :=
  if (0 <=? n) && (0 <=? q) && (q + n <=? Z.of_nat (List.length dst))
     && (0 <=? p) && (p + n <=? Z.of_nat (List.length src)) then
    Ok (list_inserts (Z.to_nat q)
          (take (Z.to_nat n) (drop (Z.to_nat p) src)) dst)
  else Undefined.

(** [memmove(a + q, a + p, n)] inside one array: the source range is read
    as it was before the call. *)
Definition memmove (a : list Z) (q p n : Z) : outcome (list Z) :=
  memcpy a q a p n.

(** ** FixedLengthString *)

Module FixedLengthString.

Definition maxSize : Z := 40.
Definition QUACKLE_FIXEDSTRING_CAPACITY : Z := 64.

Record t : Type := mk { m_data : list Z; m_end : Z }.

(** [memset(m_data, 0, maxSize)] on the object's own array. *)
Definition memset0 : list Z := replicate (Z.to_nat maxSize) 0.

(** The array has the declared number of cells. *)
Definition array_ok (x : t) : Prop :=
  Z.of_nat (List.length (m_data x)) = maxSize.

(** The cursor test shared by [end() const], [operator=], [operator+=],
    [push_back] and [pop_back]. *)
Definition cursor_corrupt (e : Z) : bool :=
  (e <? 0) || (e >? maxSize).

(** [FixedLengthString()] *)
Definition ctor_default : outcome t :=
  Ok {| m_data := memset0; m_end := 0 |}.

(** [FixedLengthString(const char* s, size_type n)]; [s] is the readable
    sequence the pointer designates. *)
Definition ctor_ptr (s : list Z) (n : Z) : outcome t :=
  _ ← assert (n <? maxSize);
  d ← memcpy memset0 0 s 0 n;
  let e := n in
  d' ← store d e 0;
  Ok {| m_data := d'; m_end := e |}.

(** The [for] loop of [FixedLengthString(size_type n, char c)]:
    [*m_end++ = c], [k] more times. *)
Fixpoint fill_loop (k : nat) (c : Z) (d : list Z) (e : Z)
  : outcome (list Z * Z) :=
  match k with
  | O => Ok (d, e)
  | S k' => d' ← store d e c; fill_loop k' c d' (e + 1)
  end.

(** [FixedLengthString(size_type n, char c)] *)
Definition ctor_fill (n : Z) (c : Z) : outcome t :=
  _ ← assert (n <? maxSize);
  '(d, e) ← fill_loop (Z.to_nat n) c memset0 0;
  d' ← store d e 0;
  Ok {| m_data := d'; m_end := e |}.

(** [length()] *)
Definition length (x : t) : outcome Z :=
  let len := to_unsigned (m_end x) in
  if (len <? 0) || (len >? maxSize) || (m_end x <? 0)
     || (m_end x >? maxSize)
  then Abort
  else Ok len.

(** [size()] *)
Definition size (x : t) : outcome Z := length x.

(** [capacity()] *)
Definition capacity (x : t) : Z := to_int maxSize.

(** [empty()] *)
Definition empty (x : t) : outcome bool :=
  len ← length x; Ok (len =? 0).

(** [begin()], const and non-const: offset of [m_data]. *)
Definition begin (x : t) : Z := 0.

(** [end() const] *)
Definition end_const (x : t) : outcome Z :=
  if cursor_corrupt (m_end x) then Abort else Ok (m_end x).

(** [end()] (non-const overload) *)
Definition end_ (x : t) : outcome Z := Ok (m_end x).

(** [operator[](n)] *)
Definition index (x : t) (n : Z) : outcome Z := load (m_data x) n.

(** [constData()]: the array, as a consumer of C strings reads it. *)
Definition constData (x : t) : list Z := m_data x.

(** [clear()] *)
Definition clear (x : t) : outcome t :=
  Ok {| m_data := m_data x; m_end := 0 |}.

(** [erase(i)], [i] an iterator (an offset into [m_data]). *)
Definition erase (x : t) (i : Z) : outcome t :=
  d ← memmove (m_data x) i (i + 1) (m_end x - i);
  Ok {| m_data := d; m_end := m_end x - 1 |}.

(** [operator+=(char c)] *)
Definition append_char (x : t) (c : Z) : outcome t :=
  sz ← size x;
  _ ← assert (sz <? to_unsigned (maxSize - 1));
  d ← store (m_data x) (m_end x) c;
  let e := m_end x + 1 in
  d' ← store d e 0;
  if cursor_corrupt e then Abort
  else Ok {| m_data := d'; m_end := e |}.

(** [push_back(c)] *)
Definition push_back (x : t) (c : Z) : outcome t :=
  let cap := to_int maxSize in
  if (m_end x <? 0) || (m_end x >=? cap) then Abort
  else if cursor_corrupt (m_end x) then Abort
  else append_char x c.

(** [pop_back()] *)
Definition pop_back (x : t) : outcome t :=
  sz ← size x;
  _ ← assert (sz >? 0);
  if cursor_corrupt (m_end x) then Abort
  else Ok {| m_data := m_data x; m_end := m_end x - 1 |}.

(** [strlen(s)]: the number of cells before the first ['\0'] of the
    readable sequence; running off its end is undefined. *)
Fixpoint strlen (s : list Z) : outcome Z :=
  match s with
  | [] => Undefined
  | c :: s' => if c =? 0 then Ok 0 else n ← strlen s'; Ok (n + 1)
  end.

(** [FixedLengthString(const char* s)] *)
Definition ctor_cstr (s : list Z) : outcome t :=
  sz ← strlen s;
  _ ← assert (sz <? maxSize);
  d ← memcpy memset0 0 s 0 sz;
  let e := sz in
  d' ← store d e 0;
  Ok {| m_data := d'; m_end := e |}.

(** [FixedLengthString(const FixedLengthString& s)] *)
Definition ctor_copy (s : t) : outcome t :=
  let cap := to_int maxSize in
  n ← size s;
  let len := to_int n in
  if (len <? 0) || (len >? cap) || (len >? QUACKLE_FIXEDSTRING_CAPACITY)
  then Abort
  else
    d ← (if len >? 0 then memcpy memset0 0 (m_data s) 0 len
         else Ok memset0);
    let e := len in
    d' ← store d e 0;
    Ok {| m_data := d'; m_end := e |}.

(** [FixedLengthString(FixedLengthString&& s)]; the source is handed over
    by non-const reference, so the call returns the new object together
    with the source as the call leaves it. *)
Definition ctor_move (s : t) : outcome (t * t) :=
  n ← size s;
  let sz := to_int n in
  d ← memcpy memset0 0 (m_data s) 0 sz;
  let e := sz in
  d' ← store d e 0;
  Ok ({| m_data := d'; m_end := e |}, s).

(** [operator=(const FixedLengthString& s)]; [aliased] is the outcome of
    the address test [this == &s]. *)
Definition assign (aliased : bool) (this s : t) : outcome t :=
  if aliased then Ok this
  else
    let cap := to_int maxSize in
    n ← size s;
    let len := to_int n in
    if (len <? 0) || (len >? cap) || (len >? QUACKLE_FIXEDSTRING_CAPACITY)
    then Abort
    else
      d ← (if len >? 0 then memcpy memset0 0 (m_data s) 0 len
           else Ok memset0);
      let e := len in
      d' ← store d e 0;
      if cursor_corrupt e then Abort
      else Ok {| m_data := d'; m_end := e |}.

(** [operator+=(const FixedLengthString& s)] *)
Definition append (x s : t) : outcome t :=
  n ← size s;
  let sz := to_int n in
  m ← size x;
  _ ← assert (to_unsigned (m + sz) <? maxSize);
  d ← memcpy (m_data x) (m_end x) (m_data s) 0 sz;
  let e := m_end x + sz in
  d' ← store d e 0;
  Ok {| m_data := d'; m_end := e |}.

(** [substr(pos, n)]; [&m_data[pos]] designates the cells of the array
    from [pos] on. *)
Definition substr (x : t) (pos n : Z) : outcome t :=
  m ← size x;
  _ ← assert (to_unsigned (pos + n) <=? m);
  ctor_ptr (drop (Z.to_nat pos) (m_data x)) n.

(** The [for] loop of [compare]: [k] iterations are left, the index is
    [i]; [Some r] is an early [return r]. *)
Fixpoint compare_loop (k : nat) (a b : list Z) (i : Z)
  : outcome (option Z) :=
  match k with
  | O => Ok None
  | S k' =>
      u ← load a i;
      v ← load b i;
      if u <? v then Ok (Some (-1))
      else if u >? v then Ok (Some 1)
      else compare_loop k' a b (i + 1)
  end.

(** [compare(s)] *)
Definition compare (x s : t) : outcome Z :=
  n1 ← size x;
  let size1 := to_int n1 in
  n2 ← size s;
  let size2 := to_int n2 in
  let sz := if size1 <? size2 then size1 else size2 in
  r ← compare_loop (Z.to_nat sz) (m_data x) (m_data s) 0;
  match r with
  | Some v => Ok v
  | None =>
      if size1 >? size2 then Ok 1
      else if size2 >? size1 then Ok (-1)
      else Ok 0
  end.

(** [operator<], [operator==], [operator!=] *)
Definition op_lt (lhs rhs : t) : outcome bool :=
  c ← compare lhs rhs; Ok (c <? 0).
Definition op_eq (lhs rhs : t) : outcome bool :=
  c ← compare lhs rhs; Ok (c =? 0).
Definition op_ne (lhs rhs : t) : outcome bool :=
  c ← compare lhs rhs; Ok (negb (c =? 0)).

(** [operator+(lhs, rhs)], [operator+(char, rhs)], [operator+(lhs, char)] *)
Definition plus (lhs rhs : t) : outcome t :=
  str ← ctor_copy lhs; append str rhs.
Definition plus_char_l (lhs : Z) (rhs : t) : outcome t :=
  str ← ctor_fill 1 lhs; append str rhs.
Definition plus_char_r (lhs : t) (rhs : Z) : outcome t :=
  str ← ctor_copy lhs; append_char str rhs.

(** *** Notions the specification speaks of *)

(** The content: the cells at indices [0, length). *)
Definition content (x : t) : list Z :=
  take (Z.to_nat (m_end x)) (m_data x).

(** Iterating a const object from [begin()] to [end()]. *)
Definition contents (x : t) : outcome (list Z) :=
  e ← end_const x; Ok (take (Z.to_nat e) (m_data x)).

(** Invariant I2: the cell at index [length] holds the sentinel. *)
Definition sentinel_ok (x : t) : Prop :=
  0 <= m_end x ∧ m_data x !! Z.to_nat (m_end x) = Some 0.

(** The states the public operations build: the declared array, and a
    cursor that leaves room for the sentinel. *)
Definition wf (x : t) : Prop :=
  array_ok x ∧ 0 <= m_end x < maxSize.

(** Lexicographic comparison of two sequences as the specification words
    it: decided on the shared prefix, a tie going to the shorter one. *)
Fixpoint lex_compare (a b : list Z) : Z :=
  match a, b with
  | [], [] => 0
  | [], _ :: _ => -1
  | _ :: _, [] => 1
  | u :: a', v :: b' =>
      if u <? v then -1 else if v <? u then 1 else lex_compare a' b'
  end.

End FixedLengthString.

(** ** Rack *)

Module Rack.

(** Modelled from the spec: [LetterString] is declared in
    [alphabetparameters.h], which is not among the sources; the
    specification has the rack own one bounded buffer, so it is
    [FixedLengthString] here. *)
Abbreviation LetterString := FixedLengthString.t.

Record t : Type := mk { m_tiles : LetterString }.

(** [setTiles(tiles)]: [m_tiles = tiles], the copy assignment of the
    buffer; [aliased] tells whether [tiles] is the rack's own buffer. *)
Definition setTiles (aliased : bool) (r : t) (tiles : LetterString)
  : outcome t :=
  m ← FixedLengthString.assign aliased (m_tiles r) tiles;
  Ok {| m_tiles := m |}.

(** [tiles()] *)
Definition tiles (r : t) : LetterString := m_tiles r.

(** [empty()] *)
Definition empty (r : t) : outcome bool :=
  FixedLengthString.empty (m_tiles r).

(** [Rack()]: the member is default-constructed, then assigned a
    temporary [LetterString()]. *)
Definition ctor_default : outcome t :=
  m ← FixedLengthString.ctor_default;
  tmp ← FixedLengthString.ctor_default;
  m' ← FixedLengthString.assign false m tmp;
  Ok {| m_tiles := m' |}.

(** [Rack(const LetterString &tiles)] *)
Definition ctor_tiles (tiles : LetterString) : outcome t :=
  m ← FixedLengthString.ctor_default;
  setTiles false {| m_tiles := m |} tiles.

(** [Rack(const Rack &other)] *)
Definition ctor_copy (other : t) : outcome t :=
  m ← FixedLengthString.ctor_default;
  tmp ← FixedLengthString.ctor_default;
  m' ← FixedLengthString.assign false m tmp;
  m'' ← FixedLengthString.assign false m' (m_tiles other);
  Ok {| m_tiles := m'' |}.

(** [Rack(Rack &&other)]: [m_tiles = std::move(other.m_tiles)].
    [FixedLengthString] declares a copy assignment and no move assignment,
    so the statement selects [operator=(const FixedLengthString&)].  The
    source rack is returned as the call leaves it. *)
Definition ctor_move (other : t) : outcome (t * t) :=
  m ← FixedLengthString.ctor_default;
  m' ← FixedLengthString.assign false m (m_tiles other);
  Ok ({| m_tiles := m' |}, other).

(** [operator=(const Rack &other)]; [same] is [this == &other]. *)
Definition assign (same : bool) (this other : t) : outcome t :=
  if same then Ok this
  else
    tmp ← FixedLengthString.ctor_default;
    m ← FixedLengthString.assign false (m_tiles this) tmp;
    m' ← FixedLengthString.assign false m (m_tiles other);
    Ok {| m_tiles := m' |}.

(** [operator=(Rack &&other)] *)
Definition assign_move (same : bool) (this other : t) : outcome (t * t) :=
  if same then Ok (this, other)
  else
    m ← FixedLengthString.assign false (m_tiles this) (m_tiles other);
    Ok ({| m_tiles := m |}, other).

Section Matching.

(** Modelled from the spec: the letter code reserved for the blank tile
    comes from the alphabet collaborator ([alphabetparameters.h], not
    among the sources); it is left open. *)
Variable blank : Z.

(** Modelled from the spec: [Rack::unload] is only declared in [rack.h].
    Whether a failed [unload] restores the tiles it had already removed
    is left as a policy choice by the specification; [rollback] is that
    choice. *)
Variable rollback : bool.

(** Modelled from the spec: the tile that serves a requested letter [c]
    is the first tile equal to [c]; only when no tile equals [c], the
    first blank ("consume the first available exact match, and only fall
    back to a blank if no exact match remains among unconsumed tiles",
    leftmost first). *)
Definition match_index (c : Z) (held : list Z) : option nat :=
  match list_find (λ y, y = c) held with
  | Some (i, _) => Some i
  | None => fst <$> list_find (λ y, y = blank) held
  end.

(** Modelled from the spec: the scan of [Rack::unload] over the requested
    letters, in order; the tile that serves a letter is erased from the
    buffer, and a letter that no tile serves ends the scan with [false]. *)
Fixpoint unload_loop (used : list Z) (x : LetterString)
  : outcome (bool * LetterString) :=
  match used with
  | [] => Ok (true, x)
  | c :: used' =>
      held ← FixedLengthString.contents x;
      match match_index c held with
      | Some i =>
          x' ← FixedLengthString.erase x (Z.of_nat i);
          unload_loop used' x'
      | None => Ok (false, x)
      end
  end.

(** Modelled from the spec: [Rack::unload(used)], declared in [rack.h]
    and defined outside the sources. *)
Definition unload (r : t) (used : LetterString) : outcome (bool * t) :=
  letters ← FixedLengthString.contents used;
  '(found, x) ← unload_loop letters (m_tiles r);
  if (found : bool) then Ok (true, {| m_tiles := x |})
  else Ok (false, if rollback then r else {| m_tiles := x |}).

(** Modelled from the spec: [Rack::load(tiles)], declared in [rack.h] and
    defined outside the sources: every letter of [tiles] is appended to
    the buffer with [operator+=]. *)
Fixpoint load_loop (letters : list Z) (x : LetterString)
  : outcome LetterString :=
  match letters with
  | [] => Ok x
  | c :: letters' =>
      x' ← FixedLengthString.append_char x c;
      load_loop letters' x'
  end.

Definition load (r : t) (tiles : LetterString) : outcome t :=
  letters ← FixedLengthString.contents tiles;
  x ← load_loop letters (m_tiles r);
  Ok {| m_tiles := x |}.

(** Modelled from the spec: [Rack::contains(used) const], declared in
    [rack.h] as "same as above but nonmutating": [unload] run on a copy of
    the rack, of which only the verdict is kept. *)
Definition contains (r : t) (used : LetterString) : outcome bool :=
  c ← ctor_copy r;
  '(found, _) ← unload c used;
  Ok found.

(** The greedy scan in the words of the specification, on plain
    sequences: the requested letters in order, each consuming the first
    tile equal to it, and a blank only when no equal tile is left. *)
Fixpoint greedy_scan (used held : list Z) : bool :=
  match used with
  | [] => true
  | c :: used' =>
      match list_find (λ y, y = c) held with
      | Some (i, _) => greedy_scan used' (delete i held)
      | None =>
          match list_find (λ y, y = blank) held with
          | Some (j, _) => greedy_scan used' (delete j held)
          | None => false
          end
      end
  end.

End Matching.

End Rack.

Module FLS := FixedLengthString.

(** ** Closed forms of what the operations return

    Used to state the lemmas below; each is shown to be the result of the
    operation it is named after. *)

(** The object [FixedLengthString(s, n)] builds when it returns. *)
Definition built (s : list Z) (n : Z) : FLS.t :=
  FLS.mk (<[Z.to_nat n := 0]>
            (list_inserts 0 (take (Z.to_nat n) s) FLS.memset0)) n.

(** The object [x += c] leaves when it returns. *)
Definition pushed (x : FLS.t) (c : Z) : FLS.t :=
  FLS.mk (<[Z.to_nat (FLS.m_end x + 1) := 0]>
            (<[Z.to_nat (FLS.m_end x) := c]> (FLS.m_data x)))
         (FLS.m_end x + 1).

(** The object [erase(i)] leaves when it returns. *)
Definition erased (x : FLS.t) (i : Z) : FLS.t :=
  FLS.mk (list_inserts (Z.to_nat i)
            (take (Z.to_nat (FLS.m_end x - i))
               (drop (Z.to_nat (i + 1)) (FLS.m_data x)))
            (FLS.m_data x))
         (FLS.m_end x - 1).

(** The object [x += s] leaves when it returns. *)
Definition appended (x s : FLS.t) : FLS.t :=
  FLS.mk (<[Z.to_nat (FLS.m_end x + FLS.m_end s) := 0]>
            (list_inserts (Z.to_nat (FLS.m_end x))
               (take (Z.to_nat (FLS.m_end s)) (FLS.m_data s))
               (FLS.m_data x)))
         (FLS.m_end x + FLS.m_end s).

(** A string in a state the public operations build, with its sentinel
    in place and [l] as its content. *)
Definition holds (x : FLS.t) (l : list Z) : Prop :=
  FLS.wf x ∧ FLS.sentinel_ok x ∧ FLS.content x = l.

(** What the loop of [compare] returns, read off the cells it walks. *)
Fixpoint scan (u v : list Z) : option Z :=
  match u, v with
  | x :: u', y :: v' =>
      if x <? y then Some (-1)
      else if x >? y then Some 1
      else scan u' v'
  | _, _ => None
  end.

(** * Properties *)

(** ** Conversions, memory primitives *)

Lemma to_unsigned_small (z : Z) : 0 <= z < 2 ^ 32 → to_unsigned z = z.
Proof. intros H. unfold to_unsigned. by apply Z.mod_small. Qed.

Lemma to_int_small (z : Z) : - 2 ^ 31 <= z < 2 ^ 31 → to_int z = z.
Proof. intros H. unfold to_int. rewrite Z.mod_small; lia. Qed.

Lemma store_ok (a : list Z) (i v : Z) :
  0 <= i < Z.of_nat (List.length a) →
  store a i v = Ok (<[Z.to_nat i := v]> a).
Proof.
  intros H. unfold store.
  destruct (Z.leb_spec 0 i), (Z.ltb_spec i (Z.of_nat (List.length a)));
    simpl; done || lia.
Qed.

Lemma load_ok (a : list Z) (i v : Z) :
  0 <= i → a !! Z.to_nat i = Some v → load a i = Ok v.
Proof.
  intros H Hv. unfold load. pose proof (lookup_lt_Some _ _ _ Hv) as Hlt.
  destruct (Z.leb_spec 0 i), (Z.ltb_spec i (Z.of_nat (List.length a)));
    simpl; try lia.
  by rewrite Hv.
Qed.

Lemma memcpy_ok (dst src : list Z) (q p n : Z) :
  0 <= n → 0 <= q → q + n <= Z.of_nat (List.length dst) →
  0 <= p → p + n <= Z.of_nat (List.length src) →
  memcpy dst q src p n =
    Ok (list_inserts (Z.to_nat q)
          (take (Z.to_nat n) (drop (Z.to_nat p) src)) dst).
Proof.
  intros Hn Hq Hd Hp Hs. unfold memcpy.
  destruct (Z.leb_spec 0 n), (Z.leb_spec 0 q), (Z.leb_spec 0 p),
    (Z.leb_spec (q + n) (Z.of_nat (List.length dst))),
    (Z.leb_spec (p + n) (Z.of_nat (List.length src))); simpl; done || lia.
Qed.

(** What a block copy leaves in each cell. *)
Lemma lookup_blit (dst src : list Z) (q p n j : nat) :
  (q + n ≤ List.length dst)%nat → (p + n ≤ List.length src)%nat →
  list_inserts q (take n (drop p src)) dst !! j =
    if decide (q ≤ j < q + n)%nat then src !! (p + (j - q))%nat
    else dst !! j.
Proof.
  intros Hd Hs.
  assert (List.length (take n (drop p src)) = n) as Hlen.
  { rewrite length_take, length_drop. lia. }
  case_decide as Hj.
  - rewrite list_lookup_inserts by lia.
    rewrite lookup_take_lt by lia. by rewrite lookup_drop.
  - destruct (decide (j < q)%nat).
    + by rewrite list_lookup_inserts_lt.
    + rewrite list_lookup_inserts_ge; [done | lia].
Qed.

Lemma memset0_length : Z.of_nat (List.length FLS.memset0) = FLS.maxSize.
Proof. reflexivity. Qed.

Lemma lookup_memset0 (j : nat) :
  (j < 40)%nat → FLS.memset0 !! j = Some 0.
Proof. intros H. unfold FLS.memset0. by apply lookup_replicate_2. Qed.

(** ** [length()] and the cursor *)

Lemma length_cursor (x : FLS.t) :
  FLS.length x =
    if FLS.cursor_corrupt (FLS.m_end x) then Abort else Ok (FLS.m_end x).
Proof.
  unfold FLS.length, FLS.cursor_corrupt, FLS.maxSize.
  destruct (Z.ltb_spec (FLS.m_end x) 0) as [Hneg | Hpos].
  { by rewrite !orb_true_r. }
  destruct (Z.gtb_spec (FLS.m_end x) 40) as [Hbig | Hsmall].
  { by rewrite !orb_true_r. }
  rewrite to_unsigned_small by lia.
  destruct (Z.ltb_spec (FLS.m_end x) 0), (Z.gtb_spec (FLS.m_end x) 40);
    simpl; done || lia.
Qed.

Lemma length_Ok (x : FLS.t) (n : Z) :
  FLS.length x = Ok n ↔ n = FLS.m_end x ∧ 0 <= n <= FLS.maxSize.
Proof.
  rewrite length_cursor. unfold FLS.cursor_corrupt, FLS.maxSize.
  destruct (Z.ltb_spec (FLS.m_end x) 0), (Z.gtb_spec (FLS.m_end x) 40);
    simpl; split; intros Hx; try discriminate; try lia.
  - injection Hx as <-. lia.
  - destruct Hx as [-> _]. done.
Qed.

Lemma length_in_range (x : FLS.t) :
  0 <= FLS.m_end x <= FLS.maxSize → FLS.length x = Ok (FLS.m_end x).
Proof. intros H. by apply length_Ok. Qed.

(** ** Construction from a sequence and a length *)

Lemma ctor_ptr_built (s : list Z) (n : Z) :
  0 <= n < FLS.maxSize → n <= Z.of_nat (List.length s) →
  FLS.ctor_ptr s n = Ok (built s n).
Proof.
  intros Hn Hs. unfold FLS.ctor_ptr, built.
  destruct (Z.ltb_spec n FLS.maxSize) as [_ | ?]; [simpl | lia].
  rewrite memcpy_ok; rewrite ?memset0_length; try lia. simpl.
  rewrite store_ok; [done |].
  rewrite length_inserts, memset0_length. lia.
Qed.

Lemma built_lookup (s : list Z) (n : Z) (j : nat) :
  0 <= n < FLS.maxSize → n <= Z.of_nat (List.length s) →
  FLS.m_data (built s n) !! j =
    if decide (j < Z.to_nat n)%nat then s !! j
    else if decide (j < 40)%nat then Some 0 else None.
Proof.
  intros Hn Hs. unfold built, FLS.maxSize in *. simpl.
  pose proof memset0_length as Hm. unfold FLS.maxSize in Hm.
  destruct (decide (j = Z.to_nat n)) as [-> | Hne].
  - rewrite list_lookup_insert_eq by (rewrite length_inserts; lia).
    rewrite decide_False by lia. rewrite decide_True by lia. done.
  - rewrite list_lookup_insert_ne by done.
    replace (take (Z.to_nat n) s) with (take (Z.to_nat n) (drop 0 s)) by done.
    rewrite lookup_blit by lia.
    case_decide; case_decide; try lia.
    + f_equal. lia.
    + case_decide.
      * by apply lookup_memset0.
      * apply lookup_ge_None. lia.
Qed.

Lemma built_content (s : list Z) (n : Z) :
  0 <= n < FLS.maxSize → n <= Z.of_nat (List.length s) →
  FLS.content (built s n) = take (Z.to_nat n) s.
Proof.
  intros Hn Hs. apply list_eq. intros j. unfold FLS.content.
  replace (FLS.m_end (built s n)) with n by done.
  rewrite !lookup_take. case_decide; [| done].
  rewrite built_lookup by done. by rewrite decide_True.
Qed.

Lemma built_wf (s : list Z) (n : Z) :
  0 <= n < FLS.maxSize → FLS.wf (built s n).
Proof.
  intros Hn. split; [| done]. unfold FLS.array_ok, built. simpl.
  by rewrite length_insert, length_inserts.
Qed.

(** C1: for [n < maxSize] (and a sequence that has [n] characters to
    copy) [FixedLengthString(s, n)] returns an object whose [length()] is
    [n], whose cells [0, n) are the first [n] characters of [s] and whose
    cell [n] is the sentinel; for [n >= maxSize] it aborts. *)
Theorem ctor_ptr_spec (s : list Z) (n : Z) :
  (0 <= n < FLS.maxSize → n <= Z.of_nat (List.length s) →
   ∃ x, FLS.ctor_ptr s n = Ok x
        ∧ FLS.length x = Ok n
        ∧ (∀ j : nat, (j < Z.to_nat n)%nat → FLS.m_data x !! j = s !! j)
        ∧ FLS.m_data x !! Z.to_nat n = Some 0
        ∧ FLS.content x = take (Z.to_nat n) s)
  ∧ (FLS.maxSize <= n → FLS.ctor_ptr s n = Abort).
Proof.
  split.
  - intros Hn Hs. exists (built s n). split; [by apply ctor_ptr_built |].
    split; [apply length_Ok; simpl; lia |].
    split; [| split].
    + intros j Hj. rewrite built_lookup by done. by rewrite decide_True.
    + rewrite built_lookup by done. unfold FLS.maxSize in Hn.
      rewrite decide_False by lia. rewrite decide_True by lia. done.
    + by apply built_content.
  - intros Hn. unfold FLS.ctor_ptr.
    destruct (Z.ltb_spec n FLS.maxSize); [lia | done].
Qed.

Lemma ctor_ptr_spec_witness :
  (∃ x, FLS.ctor_ptr [65; 66; 67] 2 = Ok x
        ∧ FLS.length x = Ok 2
        ∧ (∀ j : nat, (j < Z.to_nat 2)%nat →
             FLS.m_data x !! j = [65; 66; 67] !! j)
        ∧ FLS.m_data x !! Z.to_nat 2 = Some 0
        ∧ FLS.content x = take (Z.to_nat 2) [65; 66; 67])
  ∧ FLS.ctor_ptr [65; 66; 67] 40 = Abort.
Proof.
  split.
  - apply (proj1 (ctor_ptr_spec [65; 66; 67] 2));
      [unfold FLS.maxSize; lia | simpl; lia].
  - apply (proj2 (ctor_ptr_spec [65; 66; 67] 40)). unfold FLS.maxSize. lia.
Defined.

(** ** [compare] and the operators derived from it *)

Lemma drop_lookup_cons (a : list Z) (i : nat) (v : Z) :
  a !! i = Some v → drop i a = v :: drop (S i) a.
Proof.
  revert i. induction a as [| w a IH]; intros [| i] H; simplify_eq/=; auto.
Qed.

Lemma compare_loop_scan (k : nat) (a b : list Z) (i : nat) :
  (i + k ≤ List.length a)%nat → (i + k ≤ List.length b)%nat →
  FLS.compare_loop k a b (Z.of_nat i) =
    Ok (scan (take k (drop i a)) (take k (drop i b))).
Proof.
  revert i. induction k as [| k IH]; intros i Ha Hb; [done |].
  destruct (lookup_lt_is_Some_2 a i) as [u Hu]; [lia |].
  destruct (lookup_lt_is_Some_2 b i) as [v Hv]; [lia |].
  rewrite (drop_lookup_cons _ _ _ Hu), (drop_lookup_cons _ _ _ Hv).
  simpl. rewrite (load_ok a _ u), (load_ok b _ v);
    rewrite ?Nat2Z.id; try done; try lia.
  simpl. destruct (u <? v); [done |]. destruct (u >? v); [done |].
  replace (Z.of_nat i + 1) with (Z.of_nat (S i)) by lia.
  apply IH; lia.
Qed.

Lemma lex_compare_scan (u v : list Z) :
  FLS.lex_compare u v =
    let m := Nat.min (List.length u) (List.length v) in
    match scan (take m u) (take m v) with
    | Some r => r
    | None =>
        if Z.of_nat (List.length u) >? Z.of_nat (List.length v) then 1
        else if Z.of_nat (List.length v) >? Z.of_nat (List.length u) then -1
        else 0
    end.
Proof.
  revert v. induction u as [| x u IH]; intros [| y v]; try done.
  cbn [FLS.lex_compare List.length Nat.min take scan].
  destruct (Z.ltb_spec x y); [done |].
  rewrite Z.gtb_ltb. destruct (Z.ltb_spec y x); [done |].
  rewrite IH. cbv zeta. destruct (scan _ _); [done |].
  rewrite !Z.gtb_ltb.
  destruct (Z.ltb_spec (Z.of_nat (List.length v)) (Z.of_nat (List.length u))),
      (Z.ltb_spec (Z.of_nat (List.length u)) (Z.of_nat (List.length v))),
      (Z.ltb_spec (Z.of_nat (S (List.length v))) (Z.of_nat (S (List.length u)))),
      (Z.ltb_spec (Z.of_nat (S (List.length u))) (Z.of_nat (S (List.length v))));
      done || lia.
Qed.

Lemma lex_compare_range (u v : list Z) :
  FLS.lex_compare u v = -1 ∨ FLS.lex_compare u v = 0
  ∨ FLS.lex_compare u v = 1.
Proof.
  revert v. induction u as [| x u IH]; intros [| y v]; simpl; auto.
  destruct (x <? y); auto. destruct (y <? x); auto.
Qed.

Lemma lex_compare_eq (u v : list Z) : FLS.lex_compare u v = 0 ↔ u = v.
Proof.
  revert v. induction u as [| x u IH]; intros [| y v]; simpl;
    try (split; intros; discriminate || done).
  destruct (Z.ltb_spec x y); [split; intros; simplify_eq; lia |].
  destruct (Z.ltb_spec y x); [split; intros; simplify_eq; lia |].
  rewrite IH. assert (x = y) as -> by lia. split; intros; by simplify_eq.
Qed.

(** A tie on the shared prefix is broken by the lengths. *)
Lemma lex_compare_tie (u v : list Z) :
  let m := Nat.min (List.length u) (List.length v) in
  take m u = take m v →
  FLS.lex_compare u v =
    Z.sgn (Z.of_nat (List.length u) - Z.of_nat (List.length v)).
Proof.
  revert v. induction u as [| x u IH]; intros [| y v]; try done.
  cbn [List.length Nat.min take FLS.lex_compare]. intros H.
  injection H as -> H. rewrite Z.ltb_irrefl. rewrite IH by done.
  f_equal. lia.
Qed.

Lemma content_length (x : FLS.t) :
  0 <= FLS.m_end x <= Z.of_nat (List.length (FLS.m_data x)) →
  Z.of_nat (List.length (FLS.content x)) = FLS.m_end x.
Proof. intros H. unfold FLS.content. rewrite length_take. lia. Qed.

Lemma compare_lex (a b : FLS.t) :
  FLS.array_ok a → FLS.array_ok b →
  0 <= FLS.m_end a <= FLS.maxSize → 0 <= FLS.m_end b <= FLS.maxSize →
  FLS.compare a b = Ok (FLS.lex_compare (FLS.content a) (FLS.content b)).
Proof.
  intros Ha Hb Hea Heb. unfold FLS.compare, FLS.size.
  rewrite !length_in_range by done. simpl.
  unfold FLS.array_ok, FLS.maxSize in *.
  rewrite !to_int_small by lia.
  rewrite lex_compare_scan. cbv zeta.
  pose proof (content_length a) as La. pose proof (content_length b) as Lb.
  set (sz := if FLS.m_end a <? FLS.m_end b then FLS.m_end a else FLS.m_end b).
  assert (Nat.min (List.length (FLS.content a)) (List.length (FLS.content b))
          = Z.to_nat sz) as ->.
  { subst sz. destruct (Z.ltb_spec (FLS.m_end a) (FLS.m_end b)); lia. }
  assert (0 <= sz ∧ sz <= FLS.m_end a ∧ sz <= FLS.m_end b) as Hsz.
  { subst sz. destruct (Z.ltb_spec (FLS.m_end a) (FLS.m_end b)); lia. }
  pose proof (compare_loop_scan (Z.to_nat sz) (FLS.m_data a) (FLS.m_data b) 0)
    as Hloop.
  change (Z.of_nat 0) with 0 in Hloop. rewrite Hloop by lia. simpl.
  rewrite La, Lb by lia.
  unfold FLS.content. rewrite !take_take.
  rewrite !Nat.min_l by lia.
  destruct (scan _ _); [done |].
  destruct (FLS.m_end a >? FLS.m_end b); [done |].
  by destruct (FLS.m_end b >? FLS.m_end a).
Qed.

Lemma op_eq_content (a b : FLS.t) :
  FLS.array_ok a → FLS.array_ok b →
  0 <= FLS.m_end a <= FLS.maxSize → 0 <= FLS.m_end b <= FLS.maxSize →
  FLS.op_eq a b = Ok (bool_decide (FLS.content a = FLS.content b)).
Proof.
  intros Ha Hb Hea Heb. unfold FLS.op_eq. rewrite compare_lex by done.
  simpl. f_equal. case_bool_decide as Heq.
  - apply lex_compare_eq in Heq. by rewrite Heq.
  - apply Z.eqb_neq. by rewrite lex_compare_eq.
Qed.

(** C5: [compare] is the lexicographic comparison of the two contents:
    decided by the first difference on the shared prefix, by the lengths
    when the shared prefix ties (the shorter first), [0] exactly for equal
    length and equal content; [==], [!=] and [<] follow it. *)
Theorem compare_spec (a b : FLS.t) :
  FLS.array_ok a → FLS.array_ok b →
  0 <= FLS.m_end a <= FLS.maxSize → 0 <= FLS.m_end b <= FLS.maxSize →
  FLS.compare a b = Ok (FLS.lex_compare (FLS.content a) (FLS.content b))
  ∧ (let m := Z.to_nat (Z.min (FLS.m_end a) (FLS.m_end b)) in
     take m (FLS.m_data a) = take m (FLS.m_data b) →
     FLS.compare a b = Ok (Z.sgn (FLS.m_end a - FLS.m_end b)))
  ∧ (FLS.compare a b = Ok 0 ↔
     FLS.m_end a = FLS.m_end b ∧ FLS.content a = FLS.content b)
  ∧ FLS.op_eq a b = Ok (bool_decide (FLS.content a = FLS.content b))
  ∧ FLS.op_ne a b = Ok (negb (bool_decide (FLS.content a = FLS.content b)))
  ∧ FLS.op_lt a b =
      Ok (bool_decide (FLS.lex_compare (FLS.content a) (FLS.content b) = -1)).
Proof.
  intros Ha Hb Hea Heb.
  pose proof (compare_lex a b Ha Hb Hea Heb) as Hc.
  pose proof (content_length a) as La. pose proof (content_length b) as Lb.
  unfold FLS.array_ok in Ha, Hb.
  split; [done |]. split; [| split; [| split; [| split]]].
  - cbv zeta. intros Hpre. rewrite Hc, lex_compare_tie.
    + by rewrite La, Lb by lia.
    + cbv zeta.
      replace (Nat.min (List.length (FLS.content a))
                 (List.length (FLS.content b)))
        with (Z.to_nat (Z.min (FLS.m_end a) (FLS.m_end b))) by lia.
      unfold FLS.content. rewrite !take_take.
      rewrite !Nat.min_l by lia. done.
  - rewrite Hc. split.
    + intros [= H0]. apply lex_compare_eq in H0. split; [| done].
      rewrite <- La, <- Lb by lia. by rewrite H0.
    + intros [_ Heq]. f_equal. by apply lex_compare_eq.
  - by apply op_eq_content.
  - unfold FLS.op_ne. rewrite Hc. simpl. do 2 f_equal.
    case_bool_decide as Heq.
    + apply lex_compare_eq in Heq. by rewrite Heq.
    + apply Z.eqb_neq. by rewrite lex_compare_eq.
  - unfold FLS.op_lt. rewrite Hc. simpl. f_equal.
    destruct (lex_compare_range (FLS.content a) (FLS.content b))
      as [-> | [-> | ->]]; done.
Qed.

(** ** Appending one character *)

Lemma append_char_pushed (x : FLS.t) (c : Z) :
  FLS.array_ok x → 0 <= FLS.m_end x < FLS.maxSize - 1 →
  FLS.append_char x c = Ok (pushed x c).
Proof.
  intros Ha He. unfold FLS.append_char, FLS.size, pushed.
  unfold FLS.array_ok, FLS.maxSize in *.
  rewrite length_in_range by (unfold FLS.maxSize; lia). simpl.
  rewrite to_unsigned_small by lia.
  destruct (Z.ltb_spec (FLS.m_end x) (40 - 1)); [simpl | lia].
  rewrite store_ok by lia. simpl.
  rewrite store_ok by (rewrite length_insert; lia). simpl.
  unfold FLS.cursor_corrupt, FLS.maxSize.
  destruct (Z.ltb_spec (FLS.m_end x + 1) 0),
    (Z.gtb_spec (FLS.m_end x + 1) 40); simpl; done || lia.
Qed.

Lemma push_back_append_char (x : FLS.t) (c : Z) :
  0 <= FLS.m_end x < FLS.maxSize →
  FLS.push_back x c = FLS.append_char x c.
Proof.
  intros He. unfold FLS.push_back, FLS.cursor_corrupt, FLS.maxSize in *.
  rewrite to_int_small by lia.
  destruct (Z.ltb_spec (FLS.m_end x) 0), (Z.geb_spec (FLS.m_end x) 40),
    (Z.gtb_spec (FLS.m_end x) 40); simpl; done || lia.
Qed.

Lemma append_char_full (x : FLS.t) (c : Z) :
  FLS.maxSize - 1 <= FLS.m_end x → FLS.append_char x c = Abort.
Proof.
  intros He. unfold FLS.append_char, FLS.size. rewrite length_cursor.
  destruct (FLS.cursor_corrupt (FLS.m_end x)); [done |]. simpl.
  unfold FLS.maxSize in *. rewrite to_unsigned_small by lia.
  by destruct (Z.ltb_spec (FLS.m_end x) (40 - 1)); [lia |].
Qed.

Lemma push_back_full (x : FLS.t) (c : Z) :
  FLS.maxSize - 1 <= FLS.m_end x → FLS.push_back x c = Abort.
Proof.
  intros He. unfold FLS.push_back.
  destruct (_ || _); [done |]. destruct (FLS.cursor_corrupt _); [done |].
  by apply append_char_full.
Qed.

Lemma pushed_content (x : FLS.t) (c : Z) :
  FLS.array_ok x → 0 <= FLS.m_end x < FLS.maxSize - 1 →
  FLS.content (pushed x c) = FLS.content x ++ [c].
Proof.
  intros Ha He. unfold FLS.content, pushed, FLS.array_ok, FLS.maxSize in *.
  simpl. replace (Z.to_nat (FLS.m_end x + 1)) with (S (Z.to_nat (FLS.m_end x)))
    by lia.
  rewrite take_insert_ge by lia.
  rewrite (take_S_r _ _ c) by (apply list_lookup_insert_eq; lia).
  by rewrite take_insert_ge by lia.
Qed.

Lemma pushed_wf (x : FLS.t) (c : Z) :
  FLS.array_ok x → 0 <= FLS.m_end x < FLS.maxSize - 1 →
  FLS.wf (pushed x c).
Proof.
  intros Ha He. split; [| simpl; lia].
  unfold FLS.array_ok, pushed in *. simpl. by rewrite !length_insert.
Qed.

(** C4: with [length() < maxSize - 1], [push_back(c)] and [+= c] both
    return the same object: [c] sits at the old [length()], [length()] has
    grown by one and the sentinel follows; with [length() >= maxSize - 1]
    both abort. *)
Theorem append_char_spec (x : FLS.t) (c n : Z) :
  FLS.array_ok x → FLS.length x = Ok n →
  (n < FLS.maxSize - 1 →
   ∃ y, FLS.push_back x c = Ok y ∧ FLS.append_char x c = Ok y
        ∧ FLS.length y = Ok (n + 1)
        ∧ FLS.m_data y !! Z.to_nat n = Some c
        ∧ FLS.m_data y !! Z.to_nat (n + 1) = Some 0
        ∧ FLS.content y = FLS.content x ++ [c])
  ∧ (FLS.maxSize - 1 <= n →
     FLS.push_back x c = Abort ∧ FLS.append_char x c = Abort).
Proof.
  intros Ha Hlen. apply length_Ok in Hlen as [-> Hr]. split.
  - intros Hn. exists (pushed x c).
    assert (FLS.append_char x c = Ok (pushed x c)) as Happ
      by (apply append_char_pushed; done || lia).
    unfold FLS.array_ok, FLS.maxSize in *.
    split; [rewrite push_back_append_char; done || (unfold FLS.maxSize; lia) |].
    split; [done |].
    split; [apply length_Ok; simpl; unfold FLS.maxSize; lia |].
    split; [| split].
    + unfold pushed. simpl. rewrite list_lookup_insert_ne by lia.
      apply list_lookup_insert_eq. lia.
    + unfold pushed. simpl. apply list_lookup_insert_eq.
      rewrite length_insert. lia.
    + apply pushed_content; done || (unfold FLS.maxSize; lia).
  - intros Hn. split; [by apply push_back_full | by apply append_char_full].
Qed.

(** ** [pop_back] *)

Lemma pop_back_ok (x : FLS.t) :
  0 < FLS.m_end x <= FLS.maxSize →
  FLS.pop_back x = Ok (FLS.mk (FLS.m_data x) (FLS.m_end x - 1)).
Proof.
  intros He. unfold FLS.pop_back, FLS.size.
  rewrite length_in_range by lia. simpl.
  destruct (Z.gtb_spec (FLS.m_end x) 0); [simpl | lia].
  unfold FLS.cursor_corrupt, FLS.maxSize in *.
  by destruct (Z.ltb_spec (FLS.m_end x) 0), (Z.gtb_spec (FLS.m_end x) 40);
    try lia.
Qed.

(** C6: on a string with room for one more character, [push_back(c)]
    followed by [pop_back()] returns a string that [operator==] finds
    equal to the one before the two calls. *)
Theorem push_back_pop_back (x : FLS.t) (c n : Z) :
  FLS.array_ok x → FLS.length x = Ok n → n < FLS.maxSize - 1 →
  ∃ y z, FLS.push_back x c = Ok y ∧ FLS.pop_back y = Ok z
         ∧ FLS.op_eq z x = Ok true
         ∧ FLS.length z = Ok n ∧ FLS.content z = FLS.content x.
Proof.
  intros Ha Hlen Hn. apply length_Ok in Hlen as [-> Hr].
  exists (pushed x c), (FLS.mk (FLS.m_data (pushed x c)) (FLS.m_end x)).
  assert (FLS.content (FLS.mk (FLS.m_data (pushed x c)) (FLS.m_end x))
          = FLS.content x) as Hcont.
  { unfold FLS.content, pushed. simpl. by rewrite !take_insert_ge by lia. }
  split.
  { rewrite push_back_append_char by lia. apply append_char_pushed; done || lia. }
  split.
  { rewrite pop_back_ok by (simpl; unfold FLS.maxSize in *; lia).
    simpl. do 2 f_equal. lia. }
  split; [| split; [by apply length_Ok | done]].
  rewrite op_eq_content; try done.
  - rewrite Hcont. by rewrite bool_decide_eq_true_2.
  - unfold FLS.array_ok in *. simpl. by rewrite !length_insert.
Qed.

(** ** [erase] *)

Lemma erase_erased (x : FLS.t) (i : Z) :
  FLS.wf x → 0 <= i <= FLS.m_end x → FLS.erase x i = Ok (erased x i).
Proof.
  intros [Ha He] Hi. unfold FLS.erase, memmove, erased.
  unfold FLS.array_ok, FLS.maxSize in *.
  by rewrite memcpy_ok by lia.
Qed.

Lemma erased_lookup (x : FLS.t) (i : Z) (j : nat) :
  FLS.wf x → 0 <= i <= FLS.m_end x →
  FLS.m_data (erased x i) !! j =
    if decide (Z.to_nat i ≤ j < Z.to_nat (FLS.m_end x))%nat
    then FLS.m_data x !! S j
    else FLS.m_data x !! j.
Proof.
  intros [Ha He] Hi. unfold erased, FLS.array_ok, FLS.maxSize in *. simpl.
  rewrite lookup_blit by lia.
  case_decide; case_decide; try lia; [f_equal; lia | done].
Qed.

Lemma erased_content (x : FLS.t) (i : Z) :
  FLS.wf x → 0 <= i < FLS.m_end x →
  FLS.content (erased x i) = delete (Z.to_nat i) (FLS.content x).
Proof.
  intros Hwf Hi. apply list_eq. intros j. unfold FLS.content at 1.
  rewrite lookup_take, erased_lookup by (done || lia).
  replace (FLS.m_end (erased x i)) with (FLS.m_end x - 1) by done.
  rewrite list_lookup_delete. unfold FLS.content. rewrite !lookup_take.
  repeat case_decide; done || lia.
Qed.

Lemma erased_wf (x : FLS.t) (i : Z) :
  FLS.wf x → 0 <= i < FLS.m_end x → FLS.wf (erased x i).
Proof.
  intros [Ha He] Hi. split; [| simpl; lia].
  unfold FLS.array_ok, erased in *. simpl. by rewrite length_inserts.
Qed.

(** C7: on a string that holds the character at position [i], [erase(i)]
    returns; the cells before [i] are as they were, each cell from [i] to
    the new end holds what its right neighbour held, and [length()] is one
    less: the content has lost exactly its [i]-th character. *)
Theorem erase_spec (x : FLS.t) (i : Z) :
  FLS.wf x → 0 <= i < FLS.m_end x →
  ∃ y, FLS.erase x i = Ok y
       ∧ FLS.length y = Ok (FLS.m_end x - 1)
       ∧ (∀ j : nat, (j < Z.to_nat i)%nat →
            FLS.m_data y !! j = FLS.m_data x !! j)
       ∧ (∀ j : nat, (Z.to_nat i ≤ j < Z.to_nat (FLS.m_end x) - 1)%nat →
            FLS.m_data y !! j = FLS.m_data x !! S j)
       ∧ FLS.content y = delete (Z.to_nat i) (FLS.content x).
Proof.
  intros Hwf Hi. exists (erased x i).
  split; [apply erase_erased; done || lia |].
  split; [apply length_Ok; destruct Hwf; simpl; lia |].
  split; [| split].
  - intros j Hj. rewrite erased_lookup by (done || lia).
    by rewrite decide_False by lia.
  - intros j Hj. rewrite erased_lookup by (done || lia).
    by rewrite decide_True by lia.
  - by apply erased_content.
Qed.

(** ** Copy, move, assignment *)

Lemma ctor_copy_built (s : FLS.t) :
  FLS.wf s → FLS.ctor_copy s = Ok (built (FLS.m_data s) (FLS.m_end s)).
Proof.
  intros [Ha He]. unfold FLS.ctor_copy, FLS.size, built.
  unfold FLS.array_ok, FLS.maxSize in *.
  rewrite length_in_range by (unfold FLS.maxSize; lia). simpl.
  rewrite !to_int_small by lia.
  unfold FLS.QUACKLE_FIXEDSTRING_CAPACITY.
  destruct (Z.ltb_spec (FLS.m_end s) 0), (Z.gtb_spec (FLS.m_end s) 40),
    (Z.gtb_spec (FLS.m_end s) 64); try lia. simpl.
  destruct (Z.gtb_spec (FLS.m_end s) 0) as [Hpos | Hzero].
  - rewrite memcpy_ok; rewrite ?memset0_length; unfold FLS.maxSize; try lia.
    simpl. rewrite store_ok; [done |].
    rewrite length_inserts, memset0_length. unfold FLS.maxSize. lia.
  - assert (FLS.m_end s = 0) as -> by lia. done.
Qed.

Lemma assign_built (this s : FLS.t) :
  FLS.wf s →
  FLS.assign false this s = Ok (built (FLS.m_data s) (FLS.m_end s)).
Proof.
  intros [Ha He]. unfold FLS.assign, FLS.size, built.
  unfold FLS.array_ok, FLS.maxSize in *.
  rewrite length_in_range by (unfold FLS.maxSize; lia). simpl.
  rewrite !to_int_small by lia.
  unfold FLS.QUACKLE_FIXEDSTRING_CAPACITY, FLS.cursor_corrupt, FLS.maxSize.
  destruct (Z.ltb_spec (FLS.m_end s) 0), (Z.gtb_spec (FLS.m_end s) 40),
    (Z.gtb_spec (FLS.m_end s) 64); try lia. simpl.
  destruct (Z.gtb_spec (FLS.m_end s) 0) as [Hpos | Hzero].
  - rewrite memcpy_ok; rewrite ?memset0_length; unfold FLS.maxSize; try lia.
    simpl. rewrite store_ok; [done |].
    rewrite length_inserts, memset0_length. unfold FLS.maxSize. lia.
  - assert (FLS.m_end s = 0) as -> by lia. done.
Qed.

(** The explicit test of the copy constructor never fires: [size()] has
    already aborted on every cursor the test would reject.  Hence the two
    constructors agree on every source, not only on the valid ones. *)
Lemma ctor_move_as_copy (s : FLS.t) :
  FLS.ctor_move s = (y ← FLS.ctor_copy s; Ok (y, s)).
Proof.
  unfold FLS.ctor_move, FLS.ctor_copy, FLS.size. rewrite length_cursor.
  destruct (FLS.cursor_corrupt (FLS.m_end s)) eqn:Hc; [done |]. simpl.
  unfold FLS.cursor_corrupt, FLS.maxSize in *.
  apply orb_false_elim in Hc as [H0 H40].
  apply Z.ltb_ge in H0. rewrite Z.gtb_ltb in H40. apply Z.ltb_ge in H40.
  rewrite !to_int_small by lia.
  unfold FLS.QUACKLE_FIXEDSTRING_CAPACITY.
  destruct (Z.ltb_spec (FLS.m_end s) 0), (Z.gtb_spec (FLS.m_end s) 40),
    (Z.gtb_spec (FLS.m_end s) 64); try lia. simpl.
  destruct (Z.gtb_spec (FLS.m_end s) 0) as [Hpos | Hzero].
  - by destruct (memcpy _ _ _ _ _) as [d | |]; simpl;
      [destruct (store _ _ _) | |].
  - assert (FLS.m_end s = 0) as -> by lia.
    rewrite memcpy_ok; rewrite ?memset0_length; unfold FLS.maxSize; try lia.
    done.
Qed.

Lemma built_self_content (s : FLS.t) :
  FLS.wf s →
  FLS.content (built (FLS.m_data s) (FLS.m_end s)) = FLS.content s.
Proof.
  intros [Ha He]. unfold FLS.array_ok in Ha. apply built_content; lia.
Qed.

Lemma built_self_eq (s : FLS.t) :
  FLS.wf s → FLS.op_eq (built (FLS.m_data s) (FLS.m_end s)) s = Ok true.
Proof.
  intros Hwf. pose proof (built_wf (FLS.m_data s) (FLS.m_end s)) as [Hb _].
  { by destruct Hwf. }
  destruct Hwf as [Ha He].
  rewrite op_eq_content; try done; try (simpl; lia).
  by rewrite built_self_content, bool_decide_eq_true_2.
Qed.

(** C10: the move constructor returns what the copy constructor returns,
    on every source; a valid source is left as it was and the new object
    compares equal to it; the same holds for the move constructor of
    [Rack]. *)
Theorem ctor_move_spec :
  (∀ s, FLS.ctor_move s = (y ← FLS.ctor_copy s; Ok (y, s)))
  ∧ (∀ s, FLS.wf s →
       ∃ y, FLS.ctor_move s = Ok (y, s) ∧ FLS.ctor_copy s = Ok y
            ∧ FLS.op_eq y s = Ok true
            ∧ FLS.content y = FLS.content s
            ∧ FLS.wf y ∧ FLS.sentinel_ok y)
  ∧ (∀ r, FLS.wf (Rack.m_tiles r) →
       ∃ r', Rack.ctor_move r = Ok (r', r) ∧ Rack.ctor_copy r = Ok r'
             ∧ FLS.op_eq (Rack.m_tiles r') (Rack.m_tiles r) = Ok true
             ∧ FLS.content (Rack.m_tiles r') = FLS.content (Rack.m_tiles r)).
Proof.
  split; [exact ctor_move_as_copy |]. split.
  - intros s Hwf. exists (built (FLS.m_data s) (FLS.m_end s)).
    rewrite ctor_move_as_copy, ctor_copy_built by done.
    split; [done |]. split; [done |].
    split; [by apply built_self_eq |].
    split; [by apply built_self_content |].
    destruct Hwf as [Ha He]. split; [by apply built_wf |].
    split; [simpl; lia |]. unfold FLS.array_ok, FLS.maxSize in *.
    rewrite built_lookup by (unfold FLS.maxSize; lia). simpl.
    rewrite decide_False by lia. by rewrite decide_True by lia.
  - intros r Hwf. exists (Rack.mk (built (FLS.m_data (Rack.m_tiles r))
                                      (FLS.m_end (Rack.m_tiles r)))).
    unfold Rack.ctor_move, Rack.ctor_copy, FLS.ctor_default.
    cbn [mbind outcome_bind].
    rewrite (assign_built _ (FLS.mk FLS.memset0 0)) by (by split).
    cbn [mbind outcome_bind].
    rewrite !assign_built by done. cbn [mbind outcome_bind].
    repeat split.
    + by apply built_self_eq.
    + by apply built_self_content.
Qed.

(** ** The rack: [unload], [load], [contains] *)

Lemma contents_content (x : FLS.t) :
  0 <= FLS.m_end x <= FLS.maxSize → FLS.contents x = Ok (FLS.content x).
Proof.
  intros He. unfold FLS.contents, FLS.end_const, FLS.cursor_corrupt.
  unfold FLS.maxSize in *.
  by destruct (Z.ltb_spec (FLS.m_end x) 0), (Z.gtb_spec (FLS.m_end x) 40);
    try lia.
Qed.

Lemma wf_content_length (x : FLS.t) :
  FLS.wf x → Z.of_nat (List.length (FLS.content x)) = FLS.m_end x.
Proof.
  intros [Ha He]. apply content_length. unfold FLS.array_ok in Ha. lia.
Qed.

Section RackMatching.

Variable blank : Z.
Variable rollback : bool.

(** Erasing the tile found at index [i] of the content. *)
Lemma erase_found (x : FLS.t) (i : nat) (v : Z) :
  FLS.wf x → FLS.content x !! i = Some v →
  FLS.erase x (Z.of_nat i) = Ok (erased x (Z.of_nat i))
  ∧ FLS.wf (erased x (Z.of_nat i))
  ∧ FLS.content (erased x (Z.of_nat i)) = delete i (FLS.content x).
Proof.
  intros Hwf Hi. apply lookup_lt_Some in Hi.
  pose proof (wf_content_length x Hwf) as Hlen.
  split; [apply erase_erased; done || lia |].
  split; [apply erased_wf; done || lia |].
  rewrite erased_content by (done || lia). by rewrite Nat2Z.id.
Qed.

(** The scan over the buffer is the greedy scan over its content; when
    every requested letter is held as an equal tile, it removes exactly
    the requested letters. *)
Lemma unload_loop_greedy (used : list Z) (x : FLS.t) :
  FLS.wf x →
  ∃ x', Rack.unload_loop blank used x
          = Ok (Rack.greedy_scan blank used (FLS.content x), x')
        ∧ FLS.wf x'
        ∧ (used ⊆+ FLS.content x →
           Rack.greedy_scan blank used (FLS.content x) = true
           ∧ used ++ FLS.content x' ≡ₚ FLS.content x).
Proof.
  revert x. induction used as [| c used IH]; intros x Hwf.
  { exists x. split; [done |]. split; [done |]. by intros _. }
  cbn [Rack.unload_loop Rack.greedy_scan].
  rewrite contents_content by (destruct Hwf; lia).
  cbn [mbind outcome_bind]. unfold Rack.match_index.
  destruct (list_find (λ y, y = c) (FLS.content x)) as [[i v] |] eqn:Hc.
  - apply list_find_Some in Hc as (Hi & -> & _).
    destruct (erase_found x i c Hwf Hi) as (-> & Hwf' & Hcont).
    cbn [mbind outcome_bind].
    destruct (IH _ Hwf') as (x' & -> & Hwf'' & Hex). rewrite Hcont in *.
    exists x'. split; [done |]. split; [done |].
    intros Hsub. apply delete_Permutation in Hi.
    assert (used ⊆+ delete i (FLS.content x)) as Hsub'.
    { rewrite Hi in Hsub. by apply (submseteq_app_inv_l _ _ [c]). }
    destruct (Hex Hsub') as [-> Hperm]. split; [done |].
    simpl. by rewrite Hperm.
  - destruct (list_find (λ y, y = blank) (FLS.content x)) as [[j w] |] eqn:Hb.
    + apply list_find_Some in Hb as (Hj & -> & _).
      cbn [fmap option_fmap option_map fst].
      destruct (erase_found x j blank Hwf Hj) as (-> & Hwf' & Hcont).
      cbn [mbind outcome_bind].
      destruct (IH _ Hwf') as (x' & -> & Hwf'' & _). rewrite Hcont.
      exists x'. split; [done |]. split; [done |].
      intros Hsub. apply list_find_None in Hc.
      assert (c ∈ FLS.content x) as Hin
        by (eapply elem_of_submseteq; [| done]; left).
      by destruct (proj1 (Forall_forall _ _) Hc c Hin).
    + exists x. split; [done |]. split; [done |].
      intros Hsub. apply list_find_None in Hc.
      assert (c ∈ FLS.content x) as Hin
        by (eapply elem_of_submseteq; [| done]; left).
      by destruct (proj1 (Forall_forall _ _) Hc c Hin).
Qed.

Lemma load_loop_app (letters : list Z) (x : FLS.t) :
  FLS.wf x →
  FLS.m_end x + Z.of_nat (List.length letters) < FLS.maxSize →
  ∃ x', Rack.load_loop letters x = Ok x' ∧ FLS.wf x'
        ∧ FLS.content x' = FLS.content x ++ letters.
Proof.
  revert x. induction letters as [| c letters IH]; intros x Hwf Hroom.
  { exists x. by rewrite app_nil_r. }
  destruct Hwf as [Ha He]. simpl in Hroom.
  cbn [Rack.load_loop]. rewrite append_char_pushed by (done || lia).
  cbn [mbind outcome_bind].
  destruct (IH (pushed x c)) as (x' & -> & Hwf' & Hcont).
  - apply pushed_wf; done || lia.
  - simpl. lia.
  - exists x'. split; [done |]. split; [done |].
    rewrite Hcont, pushed_content by (done || lia). by rewrite <- app_assoc.
Qed.

Lemma contains_scan (r : Rack.t) (used : FLS.t) :
  FLS.wf (Rack.m_tiles r) → 0 <= FLS.m_end used <= FLS.maxSize →
  Rack.contains blank rollback r used =
    Ok (Rack.greedy_scan blank (FLS.content used)
          (FLS.content (Rack.m_tiles r))).
Proof.
  intros Hwf Hu. unfold Rack.contains, Rack.ctor_copy, FLS.ctor_default.
  cbn [mbind outcome_bind].
  rewrite (assign_built _ (FLS.mk FLS.memset0 0)) by (by split).
  cbn [mbind outcome_bind]. rewrite assign_built by done.
  cbn [mbind outcome_bind]. unfold Rack.unload.
  rewrite contents_content by done. cbn [mbind outcome_bind Rack.m_tiles].
  destruct (unload_loop_greedy (FLS.content used)
              (built (FLS.m_data (Rack.m_tiles r)) (FLS.m_end (Rack.m_tiles r))))
    as (x' & -> & _ & _).
  { apply built_wf. by destruct Hwf. }
  cbn [mbind outcome_bind]. rewrite built_self_content by done.
  by destruct (Rack.greedy_scan _ _ _).
Qed.

End RackMatching.

(** One step of the greedy scan: an equal tile if there is one (the
    leftmost), else the leftmost blank, else failure. *)
Lemma greedy_scan_step (blank c : Z) (used held : list Z) :
  (c ∈ held →
   ∃ i, held !! i = Some c
        ∧ (∀ j y, held !! j = Some y → (j < i)%nat → y ≠ c)
        ∧ Rack.greedy_scan blank (c :: used) held
          = Rack.greedy_scan blank used (delete i held))
  ∧ (c ∉ held → blank ∈ held →
     ∃ i, held !! i = Some blank
          ∧ (∀ j y, held !! j = Some y → (j < i)%nat → y ≠ blank)
          ∧ Rack.greedy_scan blank (c :: used) held
            = Rack.greedy_scan blank used (delete i held))
  ∧ (c ∉ held → blank ∉ held →
     Rack.greedy_scan blank (c :: used) held = false).
Proof.
  assert (∀ a : Z, a ∉ held → list_find (λ y, y = a) held = None) as Hnone.
  { intros a Ha. apply list_find_None, Forall_forall. by intros y Hy ->. }
  assert (∀ a : Z, a ∈ held →
            ∃ i, list_find (λ y, y = a) held = Some (i, a)
                 ∧ held !! i = Some a
                 ∧ ∀ j y, held !! j = Some y → (j < i)%nat → y ≠ a) as Hsome.
  { intros a Ha.
    destruct (list_find_elem_of (λ y, y = a) held a Ha eq_refl) as [[i v] Hf].
    pose proof Hf as Hf'. apply list_find_Some in Hf' as (Hi & -> & Hmin).
    by exists i. }
  cbn [Rack.greedy_scan]. split; [| split].
  - intros Hc. destruct (Hsome c Hc) as (i & -> & Hi & Hmin). by exists i.
  - intros Hc Hb. rewrite (Hnone c Hc).
    destruct (Hsome blank Hb) as (i & -> & Hi & Hmin). by exists i.
  - intros Hc Hb. by rewrite (Hnone c Hc), (Hnone blank Hb).
Qed.

(** C8: [contains] is the greedy scan of the requested letters over the
    rack's tiles: each letter takes the first tile equal to it and a blank
    only when no equal tile is left.  So a rack holding a letter and a
    blank contains any two letters that start with that letter, and a rack
    holding two blanks contains any two letters. *)
Theorem contains_greedy (blank : Z) (rollback : bool) :
  (∀ r used, FLS.wf (Rack.m_tiles r) → 0 <= FLS.m_end used <= FLS.maxSize →
     Rack.contains blank rollback r used =
       Ok (Rack.greedy_scan blank (FLS.content used)
             (FLS.content (Rack.m_tiles r))))
  ∧ (∀ c used held,
       (c ∈ held →
        ∃ i, held !! i = Some c
             ∧ (∀ j y, held !! j = Some y → (j < i)%nat → y ≠ c)
             ∧ Rack.greedy_scan blank (c :: used) held
               = Rack.greedy_scan blank used (delete i held))
       ∧ (c ∉ held → blank ∈ held →
          ∃ i, held !! i = Some blank
               ∧ (∀ j y, held !! j = Some y → (j < i)%nat → y ≠ blank)
               ∧ Rack.greedy_scan blank (c :: used) held
                 = Rack.greedy_scan blank used (delete i held))
       ∧ (c ∉ held → blank ∉ held →
          Rack.greedy_scan blank (c :: used) held = false))
  ∧ (∀ r used A B,
       FLS.wf (Rack.m_tiles r) → 0 <= FLS.m_end used <= FLS.maxSize →
       FLS.content (Rack.m_tiles r) ≡ₚ [A; blank] →
       FLS.content used = [A; B] →
       Rack.contains blank rollback r used = Ok true)
  ∧ (∀ r used X Y,
       FLS.wf (Rack.m_tiles r) → 0 <= FLS.m_end used <= FLS.maxSize →
       FLS.content (Rack.m_tiles r) = [blank; blank] →
       FLS.content used = [X; Y] →
       Rack.contains blank rollback r used = Ok true).
Proof.
  split; [intros r used; apply contains_scan |].
  split; [intros c used held; apply greedy_scan_step |]. split.
  - intros r used A B Hwf Hu Hr Hused.
    rewrite contains_scan, Hused by done. f_equal.
    apply Permutation_sym, Permutation_length_2_inv in Hr as [-> | ->];
      cbn; repeat (case_decide; cbn); congruence.
  - intros r used X Y Hwf Hu Hr Hused.
    rewrite contains_scan, Hused, Hr by done. f_equal.
    cbn; repeat (case_decide; cbn); congruence.
Qed.

Lemma contains_greedy_witness :
  Rack.contains 1 true (Rack.mk (built [5; 1] 2)) (built [5; 5] 2) = Ok true
  ∧ Rack.contains 1 true (Rack.mk (built [5; 1] 2)) (built [5; 6] 2) = Ok true
  ∧ Rack.contains 1 true (Rack.mk (built [1; 1] 2)) (built [7; 8] 2) = Ok true.
Proof.
  destruct (contains_greedy 1 true) as (_ & _ & Hab & Hbb).
  split; [| split].
  - apply (Hab _ _ 5 5); [by apply built_wf | by vm_compute | done | done].
  - apply (Hab _ _ 5 6); [by apply built_wf | by vm_compute | done | done].
  - apply (Hbb _ _ 7 8); [by apply built_wf | by vm_compute | done | done].
Defined.

(** In the model of [unload] and [load]: when every letter of [used] is
    held by the rack as an equal tile, [unload(used)] returns true and
    [load(used)] afterwards gives back the multiset of tiles the rack
    held. *)
Lemma unload_load_exact (blank : Z) (rollback : bool)
    (r : Rack.t) (used : FLS.t) :
  FLS.wf (Rack.m_tiles r) → 0 <= FLS.m_end used <= FLS.maxSize →
  FLS.content used ⊆+ FLS.content (Rack.m_tiles r) →
  ∃ r1 r2, Rack.unload blank rollback r used = Ok (true, r1)
           ∧ Rack.load r1 used = Ok r2
           ∧ FLS.content (Rack.m_tiles r2) ≡ₚ FLS.content (Rack.m_tiles r).
Proof.
  intros Hwf Hu Hsub.
  destruct (unload_loop_greedy blank (FLS.content used) (Rack.m_tiles r) Hwf)
    as (x1 & Hloop & Hwf1 & Hex).
  destruct (Hex Hsub) as [Hfound Hperm]. rewrite Hfound in Hloop.
  assert (FLS.m_end x1 + Z.of_nat (List.length (FLS.content used))
          = FLS.m_end (Rack.m_tiles r)) as Hroom.
  { apply Permutation_length in Hperm. rewrite length_app in Hperm.
    rewrite <- (wf_content_length x1), <- (wf_content_length (Rack.m_tiles r))
      by done. lia. }
  destruct (load_loop_app (FLS.content used) x1 Hwf1) as (x2 & Hload & _ & Hc2).
  { destruct Hwf as [_ ?]. lia. }
  exists (Rack.mk x1), (Rack.mk x2).
  unfold Rack.unload, Rack.load. rewrite !contents_content by done.
  cbn [mbind outcome_bind]. rewrite Hloop. cbn [mbind outcome_bind Rack.m_tiles].
  rewrite Hload. cbn [mbind outcome_bind Rack.m_tiles].
  split; [done |]. split; [done |].
  rewrite Hc2, <- Hperm. apply Permutation_app_comm.
Qed.

Lemma unload_load_exact_instance :
  ∃ r1 r2,
    Rack.unload 1 true (Rack.mk (built [5; 6; 7] 3)) (built [7; 5] 2)
      = Ok (true, r1)
    ∧ Rack.load r1 (built [7; 5] 2) = Ok r2
    ∧ FLS.content (Rack.m_tiles r2)
        ≡ₚ FLS.content (Rack.mk (built [5; 6; 7] 3)).(Rack.m_tiles).
Proof.
  apply (unload_load_exact 1 true (Rack.mk (built [5; 6; 7] 3))
           (built [7; 5] 2)).
  - by apply built_wf.
  - by vm_compute.
  - vm_compute. apply (submseteq_cons_middle 7 [5] [5; 6] []).
    apply (submseteq_skip 5), submseteq_nil_l.
Defined.

(** In the model of [unload] and [load], where a blank serves any
    requested letter: a rack holding one blank (code 1) unloads the letter
    5 through the blank, and loading 5 afterwards leaves the rack with
    the tile 5 instead of the blank. *)
Lemma unload_load_through_blank :
  ∃ r1 r2,
    Rack.unload 1 true (Rack.mk (built [1] 1)) (built [5] 1) = Ok (true, r1)
    ∧ Rack.load r1 (built [5] 1) = Ok r2
    ∧ FLS.content (Rack.m_tiles r2) = [5]
    ∧ FLS.content (Rack.m_tiles (Rack.mk (built [1] 1))) = [1]
    ∧ ¬ (FLS.content (Rack.m_tiles r2)
           ≡ₚ FLS.content (Rack.m_tiles (Rack.mk (built [1] 1)))).
Proof.
  eexists _, _. split; [vm_compute; reflexivity |].
  split; [vm_compute; reflexivity |].
  split; [reflexivity |]. split; [reflexivity |].
  change ([5] ≡ₚ [1] → False). intros H.
  apply Permutation_singleton_inj in H. discriminate.
Qed.

(** ** The sentinel (invariant I2) *)

Lemma built_sentinel (s : list Z) (n : Z) :
  0 <= n < FLS.maxSize → n <= Z.of_nat (List.length s) →
  FLS.sentinel_ok (built s n).
Proof.
  intros Hn Hs. split; [simpl; lia |].
  rewrite built_lookup by done. simpl. unfold FLS.maxSize in Hn.
  rewrite decide_False by lia. by rewrite decide_True by lia.
Qed.

Lemma pushed_sentinel (x : FLS.t) (c : Z) :
  FLS.array_ok x → 0 <= FLS.m_end x < FLS.maxSize - 1 →
  FLS.sentinel_ok (pushed x c).
Proof.
  intros Ha He. split; [simpl; lia |]. unfold pushed. simpl.
  apply list_lookup_insert_eq. rewrite length_insert.
  unfold FLS.array_ok, FLS.maxSize in *. lia.
Qed.

(** [erase] moves the sentinel along with the tail. *)
Lemma erased_sentinel (x : FLS.t) (i : Z) :
  FLS.wf x → 0 <= i < FLS.m_end x →
  FLS.sentinel_ok x → FLS.sentinel_ok (erased x i).
Proof.
  intros Hwf Hi [_ Hs]. split; [simpl; lia |].
  rewrite erased_lookup by (done || lia). simpl.
  rewrite decide_True by lia.
  by replace (S (Z.to_nat (FLS.m_end x - 1))) with (Z.to_nat (FLS.m_end x))
    by lia.
Qed.

(** C2, at the input where the code departs from it: the string "AB"
    is built with its sentinel in place; [pop_back()] moves the cursor
    back onto the cell that still holds 'B', and [clear()] onto the cell
    that still holds 'A'. *)
Theorem pop_back_clear_keep_stale_cell :
  ∃ x, FLS.ctor_ptr [65; 66] 2 = Ok x ∧ FLS.sentinel_ok x
       ∧ (∃ y, FLS.pop_back x = Ok y ∧ FLS.length y = Ok 1
               ∧ FLS.m_data y !! Z.to_nat 1 = Some 66
               ∧ ¬ FLS.sentinel_ok y)
       ∧ (∃ z, FLS.clear x = Ok z ∧ FLS.length z = Ok 0
               ∧ FLS.m_data z !! Z.to_nat 0 = Some 65
               ∧ ¬ FLS.sentinel_ok z).
Proof.
  eexists. split; [vm_compute; reflexivity |].
  split; [split; [by vm_compute | reflexivity] |].
  split; eexists; (split; [vm_compute; reflexivity |]);
    (split; [reflexivity |]); (split; [reflexivity |]);
    intros [_ H]; vm_compute in H; discriminate.
Qed.

(** ** The corruption check *)

(** Inside [0, maxSize] neither [length()] nor [end() const] aborts. *)
Lemma checks_pass (x : FLS.t) :
  0 <= FLS.m_end x <= FLS.maxSize →
  FLS.length x = Ok (FLS.m_end x) ∧ FLS.end_const x = Ok (FLS.m_end x).
Proof.
  intros He. split; [by apply length_in_range |].
  unfold FLS.end_const, FLS.cursor_corrupt, FLS.maxSize in *.
  by destruct (Z.ltb_spec (FLS.m_end x) 0), (Z.gtb_spec (FLS.m_end x) 40);
    try lia.
Qed.

(** Outside, both abort; the non-const [end()] hands the cursor out. *)
Lemma checks_fire (x : FLS.t) :
  FLS.m_end x < 0 ∨ FLS.maxSize < FLS.m_end x →
  FLS.length x = Abort ∧ FLS.end_const x = Abort
  ∧ FLS.end_ x = Ok (FLS.m_end x).
Proof.
  intros He. rewrite length_cursor.
  unfold FLS.end_const, FLS.end_, FLS.cursor_corrupt, FLS.maxSize in *.
  by destruct (Z.ltb_spec (FLS.m_end x) 0), (Z.gtb_spec (FLS.m_end x) 40);
    try lia.
Qed.

(** C3, at the input where the code departs from it: [erase(begin())] on
    the empty string leaves the cursor one cell before the array;
    [length()] and [end() const] abort on it, the non-const [end()]
    returns it. *)
Theorem end_nonconst_unchecked :
  ∃ x y, FLS.ctor_default = Ok x ∧ FLS.erase x (FLS.begin x) = Ok y
         ∧ FLS.m_end y = -1
         ∧ FLS.length y = Abort ∧ FLS.end_const y = Abort
         ∧ FLS.end_ y = Ok (-1).
Proof.
  eexists _, _. split; [reflexivity |].
  split; [vm_compute; reflexivity |]. by repeat split.
Qed.

(** ** Instances *)

Lemma append_char_spec_witness :
  (∃ y, FLS.push_back (built [65; 66] 2) 67 = Ok y
        ∧ FLS.append_char (built [65; 66] 2) 67 = Ok y
        ∧ FLS.length y = Ok (2 + 1)
        ∧ FLS.m_data y !! Z.to_nat 2 = Some 67
        ∧ FLS.m_data y !! Z.to_nat (2 + 1) = Some 0
        ∧ FLS.content y = FLS.content (built [65; 66] 2) ++ [67])
  ∧ (FLS.push_back (built (replicate 39 7) 39) 67 = Abort
     ∧ FLS.append_char (built (replicate 39 7) 39) 67 = Abort).
Proof.
  split.
  - apply (proj1 (append_char_spec (built [65; 66] 2) 67 2 eq_refl eq_refl)).
    unfold FLS.maxSize. lia.
  - apply (proj2 (append_char_spec (built (replicate 39 7) 39) 67 39
                    eq_refl eq_refl)).
    unfold FLS.maxSize. lia.
Defined.

Lemma compare_spec_witness :
  FLS.compare (built [1; 2; 3] 3) (built [1; 2; 4; 5] 2) = Ok 1
  ∧ FLS.op_eq (built [1; 2; 3] 3) (built [1; 2; 4; 5] 2) = Ok false
  ∧ FLS.op_lt (built [1; 2] 2) (built [1; 2; 4; 5] 3) = Ok true.
Proof.
  destruct (compare_spec (built [1; 2; 3] 3) (built [1; 2; 4; 5] 2))
    as (Hc & _ & _ & Heq & _); [reflexivity | reflexivity | | |].
  { unfold FLS.maxSize; simpl; lia. }
  { unfold FLS.maxSize; simpl; lia. }
  destruct (compare_spec (built [1; 2] 2) (built [1; 2; 4; 5] 3))
    as (_ & _ & _ & _ & _ & Hlt); [reflexivity | reflexivity | | |].
  { unfold FLS.maxSize; simpl; lia. }
  { unfold FLS.maxSize; simpl; lia. }
  split; [exact Hc |]. split; [exact Heq | exact Hlt].
Defined.

Lemma push_back_pop_back_witness :
  ∃ y z, FLS.push_back (built [65; 66] 2) 67 = Ok y ∧ FLS.pop_back y = Ok z
         ∧ FLS.op_eq z (built [65; 66] 2) = Ok true
         ∧ FLS.length z = Ok 2
         ∧ FLS.content z = FLS.content (built [65; 66] 2).
Proof.
  apply (push_back_pop_back (built [65; 66] 2) 67 2 eq_refl eq_refl).
  unfold FLS.maxSize. lia.
Defined.

Lemma erase_spec_witness :
  ∃ y, FLS.erase (built [65; 66; 67] 3) 1 = Ok y
       ∧ FLS.length y = Ok (3 - 1)
       ∧ (∀ j : nat, (j < Z.to_nat 1)%nat →
            FLS.m_data y !! j = FLS.m_data (built [65; 66; 67] 3) !! j)
       ∧ (∀ j : nat, (Z.to_nat 1 ≤ j < Z.to_nat 3 - 1)%nat →
            FLS.m_data y !! j = FLS.m_data (built [65; 66; 67] 3) !! S j)
       ∧ FLS.content y = delete (Z.to_nat 1) (FLS.content (built [65; 66; 67] 3)).
Proof.
  apply (erase_spec (built [65; 66; 67] 3) 1).
  - apply built_wf. unfold FLS.maxSize. lia.
  - simpl. lia.
Defined.

Lemma ctor_move_spec_witness :
  (∃ y, FLS.ctor_move (built [65; 66] 2) = Ok (y, built [65; 66] 2)
        ∧ FLS.ctor_copy (built [65; 66] 2) = Ok y
        ∧ FLS.op_eq y (built [65; 66] 2) = Ok true
        ∧ FLS.content y = FLS.content (built [65; 66] 2)
        ∧ FLS.wf y ∧ FLS.sentinel_ok y)
  ∧ (∃ r', Rack.ctor_move (Rack.mk (built [65; 66] 2))
             = Ok (r', Rack.mk (built [65; 66] 2))
           ∧ Rack.ctor_copy (Rack.mk (built [65; 66] 2)) = Ok r'
           ∧ FLS.op_eq (Rack.m_tiles r') (built [65; 66] 2) = Ok true
           ∧ FLS.content (Rack.m_tiles r') = FLS.content (built [65; 66] 2)).
Proof.
  destruct ctor_move_spec as (_ & Hfls & Hrack). split.
  - apply Hfls, built_wf. unfold FLS.maxSize. lia.
  - apply (Hrack (Rack.mk (built [65; 66] 2))), built_wf.
    unfold FLS.maxSize. lia.
Defined.

(** * Further properties of the code *)

(** ** [length()], [size()], [empty()], [end() const] *)

(** X1: [length()], [size()] and [end() const] return the cursor offset
    exactly when it lies in [0, maxSize], and abort otherwise; [empty()]
    follows [length()].  The test [len < 0] on the unsigned [len] never
    decides: a cursor before the array is caught by [m_end < m_data]. *)
Theorem length_end_agree (x : FLS.t) :
  (0 <= FLS.m_end x <= FLS.maxSize →
   FLS.length x = Ok (FLS.m_end x) ∧ FLS.size x = Ok (FLS.m_end x)
   ∧ FLS.end_const x = Ok (FLS.m_end x)
   ∧ FLS.empty x = Ok (FLS.m_end x =? 0))
  ∧ (FLS.m_end x < 0 ∨ FLS.maxSize < FLS.m_end x →
     FLS.length x = Abort ∧ FLS.size x = Abort
     ∧ FLS.end_const x = Abort ∧ FLS.empty x = Abort).
Proof.
  split; intros He.
  - destruct (checks_pass x He) as [Hl Hc]. unfold FLS.size, FLS.empty.
    by rewrite Hl, Hc.
  - destruct (checks_fire x He) as (Hl & Hc & _). unfold FLS.size, FLS.empty.
    by rewrite Hl, Hc.
Qed.

Lemma length_end_agree_witness :
  (FLS.length (FLS.mk FLS.memset0 3) = Ok 3
   ∧ FLS.size (FLS.mk FLS.memset0 3) = Ok 3
   ∧ FLS.end_const (FLS.mk FLS.memset0 3) = Ok 3
   ∧ FLS.empty (FLS.mk FLS.memset0 3) = Ok (3 =? 0))
  ∧ (FLS.length (FLS.mk FLS.memset0 (-1)) = Abort
     ∧ FLS.size (FLS.mk FLS.memset0 (-1)) = Abort
     ∧ FLS.end_const (FLS.mk FLS.memset0 (-1)) = Abort
     ∧ FLS.empty (FLS.mk FLS.memset0 (-1)) = Abort).
Proof.
  split.
  - apply (proj1 (length_end_agree (FLS.mk FLS.memset0 3))).
    unfold FLS.maxSize. simpl. lia.
  - apply (proj2 (length_end_agree (FLS.mk FLS.memset0 (-1)))).
    left. simpl. lia.
Defined.

(** ** [FixedLengthString(n, c)] *)

Lemma fill_loop_cells (k : nat) (c : Z) (d : list Z) (e : Z) :
  0 <= e → e + Z.of_nat k <= Z.of_nat (List.length d) →
  ∃ d', FLS.fill_loop k c d e = Ok (d', e + Z.of_nat k)
        ∧ List.length d' = List.length d
        ∧ ∀ j : nat, d' !! j =
            if decide (Z.to_nat e ≤ j < Z.to_nat e + k)%nat then Some c
            else d !! j.
Proof.
  revert d e. induction k as [| k IH]; intros d e He Hk.
  { exists d. rewrite Z.add_0_r. split; [done |]. split; [done |].
    intros j. by rewrite decide_False by lia. }
  cbn [FLS.fill_loop]. rewrite store_ok by lia. cbn [mbind outcome_bind].
  destruct (IH (<[Z.to_nat e := c]> d) (e + 1)) as (d' & Hloop & Hlen & Hcells).
  { lia. } { rewrite length_insert. lia. }
  exists d'. rewrite Hloop. split; [do 2 f_equal; lia |].
  split; [by rewrite Hlen, length_insert |].
  intros j. rewrite Hcells.
  destruct (decide (j = Z.to_nat e)) as [-> | Hne].
  - rewrite decide_False by lia. rewrite decide_True by lia.
    apply list_lookup_insert_eq. lia.
  - rewrite list_lookup_insert_ne by done.
    repeat case_decide; done || lia.
Qed.

Lemma ctor_fill_holds (n c : Z) :
  0 <= n < FLS.maxSize →
  ∃ x, FLS.ctor_fill n c = Ok x ∧ FLS.m_end x = n
       ∧ holds x (replicate (Z.to_nat n) c).
Proof.
  intros Hn. unfold FLS.ctor_fill.
  destruct (Z.ltb_spec n FLS.maxSize); [| lia]. cbn [assert mbind outcome_bind].
  pose proof memset0_length as Hm. unfold FLS.maxSize in *.
  destruct (fill_loop_cells (Z.to_nat n) c FLS.memset0 0)
    as (d & Hloop & Hlen & Hcells); [lia | lia |].
  rewrite Hloop. cbn [mbind outcome_bind].
  rewrite store_ok by lia. cbn [mbind outcome_bind].
  replace (0 + Z.of_nat (Z.to_nat n)) with n by lia.
  eexists. split; [done |]. split; [done |]. split; [| split].
  - split; [| simpl; unfold FLS.maxSize; lia].
    unfold FLS.array_ok. simpl. rewrite length_insert.
    unfold FLS.maxSize. lia.
  - split; [simpl; lia |]. simpl. apply list_lookup_insert_eq. lia.
  - apply list_eq. intros j. unfold FLS.content. simpl.
    rewrite lookup_take. case_decide as Hj.
    + rewrite list_lookup_insert_ne by lia. rewrite Hcells.
      rewrite decide_True by lia. symmetry. by apply lookup_replicate_2.
    + symmetry. apply lookup_replicate_None. lia.
Qed.

(** X2: for [n < maxSize], [FixedLengthString(n, c)] returns the string
    of [n] copies of [c], with [length() = n] and the sentinel after it;
    for [n >= maxSize] it aborts. *)
Theorem ctor_fill_spec (n c : Z) :
  (0 <= n < FLS.maxSize →
   ∃ x, FLS.ctor_fill n c = Ok x ∧ FLS.length x = Ok n
        ∧ FLS.content x = replicate (Z.to_nat n) c
        ∧ FLS.wf x ∧ FLS.sentinel_ok x)
  ∧ (FLS.maxSize <= n → FLS.ctor_fill n c = Abort).
Proof.
  split.
  - intros Hn. destruct (ctor_fill_holds n c Hn) as (x & Hx & He & Hwf & Hs & Hc).
    exists x. split; [done |]. split; [apply length_Ok; lia |]. done.
  - intros Hn. unfold FLS.ctor_fill.
    by destruct (Z.ltb_spec n FLS.maxSize); [lia |].
Qed.

Lemma ctor_fill_spec_witness :
  (∃ x, FLS.ctor_fill 3 65 = Ok x ∧ FLS.length x = Ok 3
        ∧ FLS.content x = replicate (Z.to_nat 3) 65
        ∧ FLS.wf x ∧ FLS.sentinel_ok x)
  ∧ FLS.ctor_fill 40 65 = Abort.
Proof.
  split.
  - apply (proj1 (ctor_fill_spec 3 65)). unfold FLS.maxSize. lia.
  - apply (proj2 (ctor_fill_spec 40 65)). unfold FLS.maxSize. lia.
Defined.

(** ** Construction from a C string *)

Lemma strlen_first_nul (s : list Z) (k : nat) :
  s !! k = Some 0 → (∀ j : nat, (j < k)%nat → s !! j ≠ Some 0) →
  FLS.strlen s = Ok (Z.of_nat k).
Proof.
  revert k. induction s as [| c s IH]; intros k Hk Hfirst; [done |].
  destruct k as [| k]; simplify_eq/=; [done |].
  destruct (Z.eqb_spec c 0) as [-> | _]; [by destruct (Hfirst 0%nat); [lia |] |].
  rewrite (IH k Hk); [cbn [mbind outcome_bind]; f_equal; lia |].
  intros j Hj. apply (Hfirst (S j)). lia.
Qed.

Lemma strlen_no_nul (s : list Z) : 0 ∉ s → FLS.strlen s = Undefined.
Proof.
  induction s as [| c s IH]; intros Hs; [done |]. simpl.
  destruct (Z.eqb_spec c 0) as [-> | _]; [destruct Hs; left |].
  rewrite IH; [done |]. intros Hin. apply Hs. by right.
Qed.

(** X3: [FixedLengthString(const char* s)] copies the characters before
    the first NUL of [s]: when that NUL is at index [k < maxSize] the
    string has length [k], content the first [k] characters of [s] (none
    of them NUL) and its sentinel; when [k >= maxSize] the call aborts. *)
Theorem ctor_cstr_spec (s : list Z) (k : nat) :
  s !! k = Some 0 → (∀ j : nat, (j < k)%nat → s !! j ≠ Some 0) →
  (Z.of_nat k < FLS.maxSize →
   ∃ x, FLS.ctor_cstr s = Ok x ∧ FLS.length x = Ok (Z.of_nat k)
        ∧ FLS.content x = take k s ∧ (0 ∉ FLS.content x)
        ∧ FLS.wf x ∧ FLS.sentinel_ok x)
  ∧ (FLS.maxSize <= Z.of_nat k → FLS.ctor_cstr s = Abort).
Proof.
  intros Hk Hfirst. unfold FLS.ctor_cstr.
  rewrite (strlen_first_nul s k Hk Hfirst). cbn [mbind outcome_bind].
  pose proof (lookup_lt_Some _ _ _ Hk) as Hlen. split.
  - intros Hmax.
    pose proof (ctor_ptr_built s (Z.of_nat k)) as Hb.
    unfold FLS.ctor_ptr in Hb. rewrite Hb by lia.
    exists (built s (Z.of_nat k)). split; [done |].
    split; [apply length_Ok; simpl; lia |].
    assert (FLS.content (built s (Z.of_nat k)) = take k s) as Hcont.
    { rewrite built_content by lia. by rewrite Nat2Z.id. }
    split; [done |]. split; [| split].
    + rewrite Hcont. intros Hin. apply list_elem_of_lookup in Hin as [j Hj].
      apply lookup_take_Some in Hj as [Hj Hlt]. by apply (Hfirst j).
    + apply built_wf. lia.
    + apply built_sentinel; lia.
  - intros Hmax. by destruct (Z.ltb_spec (Z.of_nat k) FLS.maxSize); [lia |].
Qed.

Lemma ctor_cstr_spec_witness :
  (∃ x, FLS.ctor_cstr [65; 66; 0; 67; 0] = Ok x
        ∧ FLS.length x = Ok (Z.of_nat 2)
        ∧ FLS.content x = take 2 [65; 66; 0; 67; 0] ∧ (0 ∉ FLS.content x)
        ∧ FLS.wf x ∧ FLS.sentinel_ok x).
Proof.
  apply (proj1 (ctor_cstr_spec [65; 66; 0; 67; 0] 2 eq_refl
    ltac:(intros [| [| j]] Hj; simpl; (discriminate || lia)))).
  unfold FLS.maxSize. simpl. lia.
Defined.

(** ** Copy assignment *)

Lemma assign_as_copy (this s : FLS.t) :
  FLS.assign false this s = FLS.ctor_copy s.
Proof.
  unfold FLS.assign, FLS.ctor_copy, FLS.size. rewrite length_cursor.
  destruct (FLS.cursor_corrupt (FLS.m_end s)) eqn:Hc; [done |].
  cbn [mbind outcome_bind].
  unfold FLS.cursor_corrupt, FLS.maxSize in *.
  apply orb_false_elim in Hc as [H0 H40].
  apply Z.ltb_ge in H0. rewrite Z.gtb_ltb in H40. apply Z.ltb_ge in H40.
  rewrite !to_int_small by lia. unfold FLS.QUACKLE_FIXEDSTRING_CAPACITY.
  destruct (Z.ltb_spec (FLS.m_end s) 0), (Z.gtb_spec (FLS.m_end s) 40),
    (Z.gtb_spec (FLS.m_end s) 64); try lia.
  cbn [orb]. destruct (if FLS.m_end s >? 0 then _ else _) as [d | |]; [| done..].
  cbn [mbind outcome_bind]. by destruct (store d (FLS.m_end s) 0).
Qed.

(** X4: copy assignment from another object returns exactly what copy
    construction from that source returns, whatever the destination held
    before; self-assignment returns the destination untouched; a source
    whose cursor is outside [0, maxSize] makes both abort. *)
Theorem assign_spec (this s : FLS.t) :
  FLS.assign false this s = FLS.ctor_copy s
  ∧ FLS.assign true this s = Ok this
  ∧ (FLS.wf s →
     ∃ y, FLS.assign false this s = Ok y ∧ FLS.content y = FLS.content s
          ∧ FLS.op_eq y s = Ok true ∧ FLS.wf y ∧ FLS.sentinel_ok y)
  ∧ (FLS.m_end s < 0 ∨ FLS.maxSize < FLS.m_end s →
     FLS.assign false this s = Abort ∧ FLS.ctor_copy s = Abort).
Proof.
  split; [apply assign_as_copy |]. split; [reflexivity |]. split.
  - intros Hwf. exists (built (FLS.m_data s) (FLS.m_end s)).
    split; [by apply assign_built |].
    split; [by apply built_self_content |].
    split; [by apply built_self_eq |].
    destruct Hwf as [Ha He]. unfold FLS.array_ok in Ha.
    split; [by apply built_wf | apply built_sentinel; lia].
  - intros He. rewrite assign_as_copy.
    split; unfold FLS.ctor_copy, FLS.size;
      by rewrite (proj1 (checks_fire s He)).
Qed.

Lemma assign_spec_witness :
  (∃ y, FLS.assign false (built [1; 2; 3] 3) (built [65; 66] 2) = Ok y
        ∧ FLS.content y = FLS.content (built [65; 66] 2)
        ∧ FLS.op_eq y (built [65; 66] 2) = Ok true
        ∧ FLS.wf y ∧ FLS.sentinel_ok y)
  ∧ (FLS.assign false (built [1; 2; 3] 3) (FLS.mk FLS.memset0 41) = Abort
     ∧ FLS.ctor_copy (FLS.mk FLS.memset0 41) = Abort).
Proof.
  split.
  - apply (proj1 (proj2 (proj2 (assign_spec (built [1; 2; 3] 3)
                                   (built [65; 66] 2))))).
    split; [reflexivity | unfold FLS.maxSize; simpl; lia].
  - apply (proj2 (proj2 (proj2 (assign_spec (built [1; 2; 3] 3)
                                   (FLS.mk FLS.memset0 41))))).
    right. unfold FLS.maxSize. simpl. lia.
Defined.

(** ** Appending a string *)

Lemma append_appended (x s : FLS.t) :
  FLS.wf x → FLS.array_ok s → 0 <= FLS.m_end s →
  FLS.m_end x + FLS.m_end s < FLS.maxSize →
  FLS.append x s = Ok (appended x s).
Proof.
  intros [Ha He] Hs Hs0 Hsum. unfold FLS.append, FLS.size, appended.
  unfold FLS.array_ok, FLS.maxSize in *.
  rewrite !length_in_range by (unfold FLS.maxSize; lia).
  cbn [mbind outcome_bind]. rewrite to_int_small by lia.
  rewrite to_unsigned_small by lia.
  destruct (Z.ltb_spec (FLS.m_end x + FLS.m_end s) 40); [| lia].
  cbn [assert mbind outcome_bind]. rewrite memcpy_ok by lia.
  cbn [mbind outcome_bind].
  rewrite store_ok by (rewrite length_inserts; lia). done.
Qed.

Lemma appended_lookup (x s : FLS.t) (j : nat) :
  FLS.wf x → FLS.array_ok s → 0 <= FLS.m_end s →
  FLS.m_end x + FLS.m_end s < FLS.maxSize →
  FLS.m_data (appended x s) !! j =
    if decide (j = Z.to_nat (FLS.m_end x + FLS.m_end s)) then Some 0
    else if decide (Z.to_nat (FLS.m_end x) ≤ j
                    < Z.to_nat (FLS.m_end x + FLS.m_end s))%nat
         then FLS.m_data s !! (j - Z.to_nat (FLS.m_end x))%nat
         else FLS.m_data x !! j.
Proof.
  intros [Ha He] Hs Hs0 Hsum. unfold appended, FLS.array_ok, FLS.maxSize in *.
  simpl. case_decide as Hj.
  - subst j. apply list_lookup_insert_eq. rewrite length_inserts. lia.
  - rewrite list_lookup_insert_ne by done.
    replace (take (Z.to_nat (FLS.m_end s)) (FLS.m_data s))
      with (take (Z.to_nat (FLS.m_end s)) (drop 0 (FLS.m_data s))) by done.
    rewrite lookup_blit by lia. repeat case_decide; done || lia.
Qed.

Lemma appended_content (x s : FLS.t) :
  FLS.wf x → FLS.array_ok s → 0 <= FLS.m_end s →
  FLS.m_end x + FLS.m_end s < FLS.maxSize →
  FLS.content (appended x s) = FLS.content x ++ FLS.content s.
Proof.
  intros Hwf Hs Hs0 Hsum. apply list_eq. intros j.
  unfold FLS.content at 1. rewrite lookup_take.
  rewrite appended_lookup by done.
  replace (FLS.m_end (appended x s)) with (FLS.m_end x + FLS.m_end s) by done.
  destruct Hwf as [Ha He]. pose proof (content_length x) as Lx.
  unfold FLS.array_ok, FLS.maxSize in *.
  destruct (decide (j < Z.to_nat (FLS.m_end x))%nat) as [Hlt | Hge].
  - rewrite lookup_app_l by lia. unfold FLS.content. rewrite lookup_take_lt by lia.
    repeat case_decide; done || lia.
  - rewrite lookup_app_r by lia. unfold FLS.content at 2.
    rewrite lookup_take.
    replace (List.length (FLS.content x)) with (Z.to_nat (FLS.m_end x)) by lia.
    repeat case_decide; done || lia.
Qed.

Lemma appended_wf (x s : FLS.t) :
  FLS.wf x → 0 <= FLS.m_end s →
  FLS.m_end x + FLS.m_end s < FLS.maxSize → FLS.wf (appended x s).
Proof.
  intros [Ha He] Hs0 Hsum. split; [| simpl; lia].
  unfold FLS.array_ok, appended in *. simpl.
  by rewrite length_insert, length_inserts.
Qed.

(** X5: [x += s] returns the concatenation when the two lengths sum to
    less than [maxSize]: the content of [x] followed by the content of
    [s], the lengths added, the sentinel after it; otherwise it aborts. *)
Theorem append_spec (x s : FLS.t) :
  FLS.wf x → FLS.array_ok s → 0 <= FLS.m_end s <= FLS.maxSize →
  (FLS.m_end x + FLS.m_end s < FLS.maxSize →
   ∃ y, FLS.append x s = Ok y
        ∧ FLS.length y = Ok (FLS.m_end x + FLS.m_end s)
        ∧ FLS.content y = FLS.content x ++ FLS.content s
        ∧ FLS.wf y ∧ FLS.sentinel_ok y)
  ∧ (FLS.maxSize <= FLS.m_end x + FLS.m_end s → FLS.append x s = Abort).
Proof.
  intros Hwf Hs Hse. split.
  - intros Hsum. exists (appended x s).
    split; [apply append_appended; done || lia |].
    split; [apply length_Ok; destruct Hwf; simpl; lia |].
    split; [apply appended_content; done || lia |].
    split; [apply appended_wf; done || lia |].
    split; [destruct Hwf; simpl; lia |].
    rewrite appended_lookup by (done || lia). simpl.
    by rewrite decide_True.
  - intros Hsum. destruct Hwf as [Ha He]. unfold FLS.append, FLS.size.
    unfold FLS.maxSize in *.
    rewrite !length_in_range by (unfold FLS.maxSize; lia).
    cbn [mbind outcome_bind]. rewrite to_int_small by lia.
    rewrite to_unsigned_small by lia.
    by destruct (Z.ltb_spec (FLS.m_end x + FLS.m_end s) 40); [lia |].
Qed.

Lemma append_spec_witness :
  (∃ y, FLS.append (built [1; 2] 2) (built [3; 4; 5] 3) = Ok y
        ∧ FLS.length y = Ok (2 + 3)
        ∧ FLS.content y = FLS.content (built [1; 2] 2)
                          ++ FLS.content (built [3; 4; 5] 3)
        ∧ FLS.wf y ∧ FLS.sentinel_ok y)
  ∧ FLS.append (built (replicate 30 7) 30) (built (replicate 10 8) 10) = Abort.
Proof.
  split.
  - apply (proj1 (append_spec (built [1; 2] 2) (built [3; 4; 5] 3)
      ltac:(split; [reflexivity | unfold FLS.maxSize; simpl; lia])
      eq_refl ltac:(unfold FLS.maxSize; simpl; lia))).
    unfold FLS.maxSize. simpl. lia.
  - apply (proj2 (append_spec (built (replicate 30 7) 30)
                    (built (replicate 10 8) 10)
      ltac:(split; [reflexivity | unfold FLS.maxSize; simpl; lia])
      eq_refl ltac:(unfold FLS.maxSize; simpl; lia))).
    unfold FLS.maxSize. simpl. lia.
Defined.

(** ** [substr] and the three [operator+] *)

Lemma wf_length (x : FLS.t) (l : list Z) :
  holds x l → FLS.m_end x = Z.of_nat (List.length l).
Proof. intros (Hwf & _ & <-). symmetry. by apply wf_content_length. Qed.

Lemma built_holds (s : list Z) (n : Z) :
  0 <= n < FLS.maxSize → n <= Z.of_nat (List.length s) →
  holds (built s n) (take (Z.to_nat n) s).
Proof.
  intros Hn Hs. split; [by apply built_wf |].
  split; [by apply built_sentinel | by apply built_content].
Qed.

Lemma copy_holds (s : FLS.t) :
  FLS.wf s →
  ∃ y, FLS.ctor_copy s = Ok y ∧ holds y (FLS.content s).
Proof.
  intros Hwf. exists (built (FLS.m_data s) (FLS.m_end s)).
  split; [by apply ctor_copy_built |]. destruct Hwf as [Ha He].
  unfold FLS.array_ok in Ha.
  replace (FLS.content s)
    with (take (Z.to_nat (FLS.m_end s)) (FLS.m_data s)) by done.
  apply built_holds; lia.
Qed.

Lemma append_holds (x s : FLS.t) :
  FLS.wf x → FLS.array_ok s → 0 <= FLS.m_end s →
  FLS.m_end x + FLS.m_end s < FLS.maxSize →
  ∃ y, FLS.append x s = Ok y ∧ holds y (FLS.content x ++ FLS.content s).
Proof.
  intros Hwf Hs Hs0 Hsum. exists (appended x s).
  split; [by apply append_appended |].
  split; [by apply appended_wf |].
  split; [| by apply appended_content].
  split; [destruct Hwf; simpl; lia |].
  rewrite appended_lookup by done. simpl. by rewrite decide_True.
Qed.

Lemma append_full (x s : FLS.t) :
  0 <= FLS.m_end x <= FLS.maxSize → 0 <= FLS.m_end s <= FLS.maxSize →
  FLS.maxSize <= FLS.m_end x + FLS.m_end s → FLS.append x s = Abort.
Proof.
  intros He Hs Hsum. unfold FLS.append, FLS.size.
  rewrite !length_in_range by done. unfold FLS.maxSize in *.
  cbn [mbind outcome_bind]. rewrite to_int_small by lia.
  rewrite to_unsigned_small by lia.
  by destruct (Z.ltb_spec (FLS.m_end x + FLS.m_end s) 40); [lia |].
Qed.

Lemma substr_holds (x : FLS.t) (pos n : Z) :
  FLS.wf x → 0 <= pos → 0 <= n → pos + n <= FLS.m_end x →
  ∃ y, FLS.substr x pos n = Ok y
       ∧ holds y (take (Z.to_nat n) (drop (Z.to_nat pos) (FLS.content x))).
Proof.
  intros [Ha He] Hpos Hn Hsum. unfold FLS.substr, FLS.size.
  unfold FLS.array_ok, FLS.maxSize in *.
  rewrite length_in_range by (unfold FLS.maxSize; lia).
  cbn [mbind outcome_bind]. rewrite to_unsigned_small by lia.
  destruct (Z.leb_spec (pos + n) (FLS.m_end x)); [| lia].
  cbn [assert mbind outcome_bind].
  assert (n <= Z.of_nat (List.length (drop (Z.to_nat pos) (FLS.m_data x))))
    as Hroom by (rewrite length_drop; lia).
  rewrite ctor_ptr_built by (unfold FLS.maxSize; lia).
  eexists. split; [done |].
  replace (take (Z.to_nat n) (drop (Z.to_nat pos) (FLS.content x)))
    with (take (Z.to_nat n) (drop (Z.to_nat pos) (FLS.m_data x))).
  { apply built_holds; unfold FLS.maxSize; lia. }
  unfold FLS.content.
  replace (Z.to_nat (FLS.m_end x))
    with (Z.to_nat pos + Z.to_nat (FLS.m_end x - pos))%nat by lia.
  rewrite <- take_drop_commute, take_take. f_equal. lia.
Qed.

Lemma substr_assert_fails (x : FLS.t) (pos n : Z) :
  0 <= FLS.m_end x <= FLS.maxSize →
  FLS.m_end x < to_unsigned (pos + n) → FLS.substr x pos n = Abort.
Proof.
  intros He Hsum. unfold FLS.substr, FLS.size.
  rewrite length_in_range by done. cbn [mbind outcome_bind].
  by destruct (Z.leb_spec (to_unsigned (pos + n)) (FLS.m_end x)); [lia |].
Qed.

(** X6: [substr(pos, n)] with [pos + n <= length()] returns the slice:
    a new string of length [n] whose content is the [n] characters of the
    receiver from position [pos] on, with its sentinel.  The test is made
    on the unsigned sum: when that sum exceeds [length()] the call aborts
    (so it does whenever [pos + n > length()] without wrap-around); when
    [pos + n] wraps around [2^32] to a value within [length()] the test
    passes, and the call aborts in the constructor if [n >= maxSize] and
    reads outside the array otherwise. *)
Theorem substr_spec (x : FLS.t) (pos n : Z) :
  FLS.wf x → 0 <= pos → 0 <= n →
  (pos + n <= FLS.m_end x →
   ∃ y, FLS.substr x pos n = Ok y ∧ FLS.length y = Ok n
        ∧ FLS.content y
          = take (Z.to_nat n) (drop (Z.to_nat pos) (FLS.content x))
        ∧ FLS.wf y ∧ FLS.sentinel_ok y)
  ∧ (FLS.m_end x < pos + n < 2 ^ 32 → FLS.substr x pos n = Abort)
  ∧ (FLS.m_end x < to_unsigned (pos + n) → FLS.substr x pos n = Abort)
  ∧ (pos < 2 ^ 32 → n < 2 ^ 32 → 2 ^ 32 <= pos + n →
     to_unsigned (pos + n) <= FLS.m_end x →
     (FLS.maxSize <= n → FLS.substr x pos n = Abort)
     ∧ (n < FLS.maxSize → FLS.substr x pos n = Undefined)).
Proof.
  intros Hwf Hpos Hn. split; [| split; [| split]].
  - intros Hsum. destruct (substr_holds x pos n Hwf Hpos Hn Hsum)
      as (y & Hy & Hh).
    exists y. split; [done |]. pose proof (wf_length _ _ Hh) as Hlen.
    destruct Hh as (Hwfy & Hsy & Hcy). split; [| done].
    pose proof (wf_content_length x Hwf) as Lx. destruct Hwf as [_ ?].
    apply length_Ok. split; [| lia].
    rewrite Hlen, length_take, length_drop. lia.
  - intros Hsum. destruct Hwf as [_ He]. apply substr_assert_fails; [lia |].
    rewrite to_unsigned_small; lia.
  - intros Hsum. destruct Hwf as [_ He]. apply substr_assert_fails; done || lia.
  - intros Hp Hn32 Hwrap Hpass. destruct Hwf as [Ha He].
    unfold FLS.substr, FLS.size.
    rewrite length_in_range by lia. cbn [mbind outcome_bind].
    destruct (Z.leb_spec (to_unsigned (pos + n)) (FLS.m_end x)); [| lia].
    cbn [assert mbind outcome_bind]. unfold FLS.ctor_ptr. split.
    + intros Hbig. by destruct (Z.ltb_spec n FLS.maxSize); [lia |].
    + intros Hsmall. destruct (Z.ltb_spec n FLS.maxSize); [| lia].
      cbn [assert mbind outcome_bind]. unfold memcpy.
      unfold FLS.array_ok, FLS.maxSize in *.
      destruct (Z.leb_spec (0 + n)
                  (Z.of_nat (List.length (drop (Z.to_nat pos) (FLS.m_data x)))))
        as [Hfit | _].
      { rewrite length_drop in Hfit. lia. }
      by rewrite andb_false_r.
Qed.

Lemma substr_spec_witness :
  (∃ y, FLS.substr (built [1; 2; 3; 4; 5] 5) 1 3 = Ok y
        ∧ FLS.length y = Ok 3
        ∧ FLS.content y
          = take (Z.to_nat 3)
              (drop (Z.to_nat 1) (FLS.content (built [1; 2; 3; 4; 5] 5)))
        ∧ FLS.wf y ∧ FLS.sentinel_ok y)
  ∧ FLS.substr (built [1; 2; 3; 4; 5] 5) 4 2 = Abort
  ∧ FLS.substr (built [1; 2; 3; 4; 5] 5) 4294967295 1 = Undefined.
Proof.
  assert (FLS.wf (built [1; 2; 3; 4; 5] 5)) as Hwf
    by (split; [reflexivity | unfold FLS.maxSize; cbn [FLS.m_end built]; lia]).
  split; [| split].
  - apply (proj1 (substr_spec (built [1; 2; 3; 4; 5] 5) 1 3 Hwf
                    ltac:(lia) ltac:(lia))).
    cbn [FLS.m_end built]. lia.
  - apply (proj1 (proj2 (substr_spec (built [1; 2; 3; 4; 5] 5) 4 2 Hwf
                           ltac:(lia) ltac:(lia)))).
    cbn [FLS.m_end built]. lia.
  - apply (proj2 (proj2 (proj2 (substr_spec (built [1; 2; 3; 4; 5] 5)
                                  4294967295 1 Hwf ltac:(lia) ltac:(lia))))).
    + lia.
    + lia.
    + lia.
    + cbn [FLS.m_end built]. unfold to_unsigned. vm_compute. discriminate.
    + unfold FLS.maxSize. lia.
Defined.

(** X7: the three [operator+]: string + string is the concatenation when
    the lengths sum to less than [maxSize], char + string puts the
    character in front when [length() + 1 < maxSize], string + char puts
    it behind when [length() < maxSize - 1]; each aborts otherwise. *)
Theorem plus_spec (lhs rhs : FLS.t) (c : Z) :
  FLS.wf lhs → FLS.wf rhs →
  ((FLS.m_end lhs + FLS.m_end rhs < FLS.maxSize →
    ∃ y, FLS.plus lhs rhs = Ok y
         ∧ FLS.content y = FLS.content lhs ++ FLS.content rhs
         ∧ FLS.wf y ∧ FLS.sentinel_ok y)
   ∧ (FLS.maxSize <= FLS.m_end lhs + FLS.m_end rhs →
      FLS.plus lhs rhs = Abort))
  ∧ ((1 + FLS.m_end rhs < FLS.maxSize →
      ∃ y, FLS.plus_char_l c rhs = Ok y
           ∧ FLS.content y = c :: FLS.content rhs
           ∧ FLS.wf y ∧ FLS.sentinel_ok y)
     ∧ (FLS.maxSize <= 1 + FLS.m_end rhs → FLS.plus_char_l c rhs = Abort))
  ∧ ((FLS.m_end lhs < FLS.maxSize - 1 →
      ∃ y, FLS.plus_char_r lhs c = Ok y
           ∧ FLS.content y = FLS.content lhs ++ [c]
           ∧ FLS.wf y ∧ FLS.sentinel_ok y)
     ∧ (FLS.maxSize - 1 <= FLS.m_end lhs → FLS.plus_char_r lhs c = Abort)).
Proof.
  intros Hl Hr.
  destruct (copy_holds lhs Hl) as (l' & Hcopy & Hh).
  pose proof (wf_length _ _ Hh) as Hlen.
  rewrite (wf_content_length lhs Hl) in Hlen.
  destruct Hh as (Hwfl & _ & Hcl).
  destruct (ctor_fill_holds 1 c) as (f & Hfill & Hfe & Hwff & _ & Hcf);
    [unfold FLS.maxSize; lia |].
  unfold FLS.plus, FLS.plus_char_l, FLS.plus_char_r.
  rewrite Hcopy, Hfill. cbn [mbind outcome_bind].
  destruct Hr as [Har Her]. pose proof Hwfl as [Hal Hel].
  split; [| split]; split.
  - intros Hsum. destruct (append_holds l' rhs) as (y & -> & Hy & Hsy & Hcy);
      try done; try lia.
    exists y. by rewrite Hcy, Hcl.
  - intros Hsum. apply append_full; lia.
  - intros Hsum. destruct (append_holds f rhs) as (y & -> & Hy & Hsy & Hcy);
      try done; try lia.
    exists y. by rewrite Hcy, Hcf.
  - intros Hsum. apply append_full; unfold FLS.maxSize in *; lia.
  - intros Hroom. rewrite append_char_pushed by (done || lia).
    exists (pushed l' c). split; [done |].
    split; [rewrite pushed_content by (done || lia); by rewrite Hcl |].
    split; [apply pushed_wf | apply pushed_sentinel]; done || lia.
  - intros Hfull. apply append_char_full. lia.
Qed.

Lemma plus_spec_witness :
  (∃ y, FLS.plus (built [1; 2] 2) (built [3] 1) = Ok y
        ∧ FLS.content y
          = FLS.content (built [1; 2] 2) ++ FLS.content (built [3] 1)
        ∧ FLS.wf y ∧ FLS.sentinel_ok y)
  ∧ (∃ y, FLS.plus_char_l 9 (built [3] 1) = Ok y
          ∧ FLS.content y = 9 :: FLS.content (built [3] 1)
          ∧ FLS.wf y ∧ FLS.sentinel_ok y)
  ∧ (∃ y, FLS.plus_char_r (built [1; 2] 2) 9 = Ok y
          ∧ FLS.content y = FLS.content (built [1; 2] 2) ++ [9]
          ∧ FLS.wf y ∧ FLS.sentinel_ok y).
Proof.
  destruct (plus_spec (built [1; 2] 2) (built [3] 1) 9)
    as ((H1 & _) & (H2 & _) & (H3 & _)).
  - split; [reflexivity | unfold FLS.maxSize; simpl; lia].
  - split; [reflexivity | unfold FLS.maxSize; simpl; lia].
  - split; [| split].
    + apply H1. unfold FLS.maxSize. simpl. lia.
    + apply H2. unfold FLS.maxSize. simpl. lia.
    + apply H3. unfold FLS.maxSize. simpl. lia.
Defined.

(** X8: concatenation can be undone by [substr]: when [a + b] returns,
    its slice of the first [length(a)] characters compares equal to [a]
    and the slice of the following [length(b)] characters to [b]. *)
Theorem plus_substr (a b : FLS.t) :
  FLS.wf a → FLS.wf b → FLS.m_end a + FLS.m_end b < FLS.maxSize →
  ∃ y p q, FLS.plus a b = Ok y
           ∧ FLS.substr y 0 (FLS.m_end a) = Ok p ∧ FLS.op_eq p a = Ok true
           ∧ FLS.substr y (FLS.m_end a) (FLS.m_end b) = Ok q
           ∧ FLS.op_eq q b = Ok true.
Proof.
  intros Ha Hb Hsum.
  destruct (copy_holds a Ha) as (a' & Hcopy & Hh).
  pose proof (wf_length _ _ Hh) as Hlen.
  rewrite (wf_content_length a Ha) in Hlen. destruct Hh as (Hwfa' & _ & Hca').
  pose proof Ha as [Haa Hea]. pose proof Hb as [Hab Heb].
  destruct (append_holds a' b) as (y & Happ & Hy); try done; try lia.
  pose proof (wf_length _ _ Hy) as Hylen. destruct Hy as (Hwfy & _ & Hcy).
  rewrite Hca' in Hcy. rewrite Hca', length_app in Hylen.
  pose proof (wf_content_length a Ha) as La.
  pose proof (wf_content_length b Hb) as Lb.
  destruct (substr_holds y 0 (FLS.m_end a)) as (p & Hp & Hwfp & _ & Hcp);
    try done; try lia.
  destruct (substr_holds y (FLS.m_end a) (FLS.m_end b))
    as (q & Hq & Hwfq & _ & Hcq); try done; try lia.
  exists y, p, q. unfold FLS.plus. rewrite Hcopy. cbn [mbind outcome_bind].
  split; [done |]. split; [done |].
  assert (FLS.content p = FLS.content a) as Hpa.
  { rewrite Hcp, Hcy. change (Z.to_nat 0) with 0%nat. rewrite drop_0.
    rewrite take_app_le by lia.
    apply take_ge. lia. }
  assert (FLS.content q = FLS.content b) as Hqb.
  { rewrite Hcq, Hcy. rewrite drop_app_length' by lia. apply take_ge. lia. }
  destruct Hwfp as [? ?], Hwfq as [? ?].
  split; [| split; [done |]].
  - rewrite op_eq_content; try done; try lia.
    by rewrite bool_decide_eq_true_2.
  - rewrite op_eq_content; try done; try lia.
    by rewrite bool_decide_eq_true_2.
Qed.

Lemma plus_substr_witness :
  ∃ y p q, FLS.plus (built [1; 2] 2) (built [3; 4; 5] 3) = Ok y
           ∧ FLS.substr y 0 2 = Ok p
           ∧ FLS.op_eq p (built [1; 2] 2) = Ok true
           ∧ FLS.substr y 2 3 = Ok q
           ∧ FLS.op_eq q (built [3; 4; 5] 3) = Ok true.
Proof.
  apply (plus_substr (built [1; 2] 2) (built [3; 4; 5] 3)).
  - split; [reflexivity | unfold FLS.maxSize; simpl; lia].
  - split; [reflexivity | unfold FLS.maxSize; simpl; lia].
  - unfold FLS.maxSize. simpl. lia.
Defined.

(** ** [compare] as an order *)

Lemma lex_compare_antisym (u v : list Z) :
  FLS.lex_compare v u = - FLS.lex_compare u v.
Proof.
  revert v. induction u as [| x u IH]; intros [| y v]; try done.
  cbn [FLS.lex_compare].
  destruct (Z.ltb_spec x y), (Z.ltb_spec y x); try done; try lia.
Qed.

Lemma lex_compare_trans (u v w : list Z) :
  FLS.lex_compare u v = -1 → FLS.lex_compare v w = -1 →
  FLS.lex_compare u w = -1.
Proof.
  revert v w. induction u as [| x u IH]; intros [| y v] [| z w]; try done.
  cbn [FLS.lex_compare].
  destruct (Z.ltb_spec x y), (Z.ltb_spec y x), (Z.ltb_spec y z),
    (Z.ltb_spec z y), (Z.ltb_spec x z), (Z.ltb_spec z x);
    try done; try lia.
  apply IH.
Qed.

(** X9: [compare] is antisymmetric and reflexive: [b.compare(a)] is the
    negation of [a.compare(b)], the result is one of -1, 0, 1, and a
    string compares 0 with itself. *)
Theorem compare_antisym (a b : FLS.t) :
  FLS.array_ok a → FLS.array_ok b →
  0 <= FLS.m_end a <= FLS.maxSize → 0 <= FLS.m_end b <= FLS.maxSize →
  ∃ r, FLS.compare a b = Ok r ∧ FLS.compare b a = Ok (- r)
       ∧ (r = -1 ∨ r = 0 ∨ r = 1)
       ∧ FLS.compare a a = Ok 0.
Proof.
  intros Ha Hb Hea Heb.
  exists (FLS.lex_compare (FLS.content a) (FLS.content b)).
  rewrite !compare_lex by done.
  split; [done |]. split; [by rewrite lex_compare_antisym |].
  split; [apply lex_compare_range |].
  f_equal. by apply lex_compare_eq.
Qed.

Lemma compare_antisym_witness :
  ∃ r, FLS.compare (built [1; 2] 2) (built [1; 3] 2) = Ok r
       ∧ FLS.compare (built [1; 3] 2) (built [1; 2] 2) = Ok (- r)
       ∧ (r = -1 ∨ r = 0 ∨ r = 1)
       ∧ FLS.compare (built [1; 2] 2) (built [1; 2] 2) = Ok 0.
Proof.
  apply (compare_antisym (built [1; 2] 2) (built [1; 3] 2) eq_refl eq_refl);
    unfold FLS.maxSize; simpl; lia.
Defined.

Lemma op_lt_lex (a b : FLS.t) :
  FLS.array_ok a → FLS.array_ok b →
  0 <= FLS.m_end a <= FLS.maxSize → 0 <= FLS.m_end b <= FLS.maxSize →
  FLS.op_lt a b = Ok true ↔
  FLS.lex_compare (FLS.content a) (FLS.content b) = -1.
Proof.
  intros Ha Hb Hea Heb. unfold FLS.op_lt. rewrite compare_lex by done.
  cbn [mbind outcome_bind].
  destruct (lex_compare_range (FLS.content a) (FLS.content b))
    as [-> | [-> | ->]]; split; intros; simplify_eq/=; done.
Qed.

(** X10: [operator<] is a strict total order on the contents: no string
    is below itself, the relation is transitive, and of [a < b],
    [a == b], [b < a] exactly one is true. *)
Theorem op_lt_strict_order (a b c : FLS.t) :
  FLS.array_ok a → FLS.array_ok b → FLS.array_ok c →
  0 <= FLS.m_end a <= FLS.maxSize → 0 <= FLS.m_end b <= FLS.maxSize →
  0 <= FLS.m_end c <= FLS.maxSize →
  FLS.op_lt a a = Ok false
  ∧ (FLS.op_lt a b = Ok true → FLS.op_lt b c = Ok true →
     FLS.op_lt a c = Ok true)
  ∧ ((FLS.op_lt a b = Ok true ∧ FLS.op_eq a b = Ok false
      ∧ FLS.op_lt b a = Ok false)
     ∨ (FLS.op_lt a b = Ok false ∧ FLS.op_eq a b = Ok true
        ∧ FLS.op_lt b a = Ok false)
     ∨ (FLS.op_lt a b = Ok false ∧ FLS.op_eq a b = Ok false
        ∧ FLS.op_lt b a = Ok true)).
Proof.
  intros Ha Hb Hc Hea Heb Hec. split; [| split].
  - unfold FLS.op_lt. rewrite compare_lex by done.
    by rewrite (proj2 (lex_compare_eq _ _) eq_refl).
  - rewrite !op_lt_lex by done. apply lex_compare_trans.
  - unfold FLS.op_lt, FLS.op_eq. rewrite !compare_lex by done.
    rewrite (lex_compare_antisym (FLS.content a) (FLS.content b)).
    cbn [mbind outcome_bind].
    destruct (lex_compare_range (FLS.content a) (FLS.content b))
      as [-> | [-> | ->]]; cbn; auto.
Qed.

Lemma op_lt_strict_order_witness :
  FLS.op_lt (built [1] 1) (built [1] 1) = Ok false
  ∧ FLS.op_lt (built [1] 1) (built [2] 1) = Ok true.
Proof.
  destruct (op_lt_strict_order (built [1] 1) (built [1; 2] 2) (built [2] 1)
              eq_refl eq_refl eq_refl) as (Hirr & Htrans & _);
    [unfold FLS.maxSize; simpl; lia.. |].
  split; [exact Hirr | apply Htrans; reflexivity].
Defined.

(** ** [erase] at [end()], [pop_back], [clear] *)

(** X11: [erase] does not check its position.  At [end()] it moves no
    cell and steps the cursor back: on a non-empty string that is what
    [pop_back()] returns; on the empty string it returns with the cursor
    one cell before the array, and [length()], [push_back], [+=] and
    [pop_back] abort on the result. *)
Theorem erase_at_end (x : FLS.t) (c : Z) :
  FLS.wf x →
  FLS.erase x (FLS.m_end x) = Ok (FLS.mk (FLS.m_data x) (FLS.m_end x - 1))
  ∧ (0 < FLS.m_end x → FLS.pop_back x = FLS.erase x (FLS.m_end x))
  ∧ (FLS.m_end x = 0 →
     ∃ y, FLS.erase x (FLS.begin x) = Ok y ∧ FLS.m_end y = -1
          ∧ FLS.length y = Abort ∧ FLS.push_back y c = Abort
          ∧ FLS.append_char y c = Abort ∧ FLS.pop_back y = Abort).
Proof.
  intros Hwf.
  assert (FLS.erase x (FLS.m_end x)
          = Ok (FLS.mk (FLS.m_data x) (FLS.m_end x - 1))) as Herase.
  { rewrite erase_erased by (destruct Hwf; done || lia). unfold erased.
    by rewrite Z.sub_diag. }
  split; [done |]. split.
  - intros Hpos. rewrite Herase. apply pop_back_ok.
    destruct Hwf as [_ ?]. lia.
  - intros H0. exists (FLS.mk (FLS.m_data x) (-1)).
    unfold FLS.begin. rewrite <- H0 at 1. rewrite Herase, H0.
    split; [done |]. split; [done |].
    unfold FLS.push_back, FLS.append_char, FLS.pop_back, FLS.size.
    rewrite length_cursor. by cbn.
Qed.

Lemma erase_at_end_witness :
  FLS.erase (built [65; 66] 2) 2
    = Ok (FLS.mk (FLS.m_data (built [65; 66] 2)) (2 - 1))
  ∧ FLS.pop_back (built [65; 66] 2) = FLS.erase (built [65; 66] 2) 2
  ∧ (∃ y, FLS.erase (built [] 0) (FLS.begin (built [] 0)) = Ok y
          ∧ FLS.m_end y = -1
          ∧ FLS.length y = Abort ∧ FLS.push_back y 65 = Abort
          ∧ FLS.append_char y 65 = Abort ∧ FLS.pop_back y = Abort).
Proof.
  destruct (erase_at_end (built [65; 66] 2) 65) as (H1 & H2 & _).
  { split; [reflexivity | unfold FLS.maxSize; simpl; lia]. }
  destruct (erase_at_end (built [] 0) 65) as (_ & _ & H3).
  { split; [reflexivity | unfold FLS.maxSize; simpl; lia]. }
  split; [exact H1 |]. split; [apply H2; simpl; lia | apply H3; reflexivity].
Defined.

(** X12: [pop_back()] on a non-empty string returns the string without
    its last character, leaving every cell of the array as it was; on
    the empty string it aborts. *)
Theorem pop_back_spec (x : FLS.t) :
  (0 < FLS.m_end x <= FLS.maxSize →
   ∃ y, FLS.pop_back x = Ok y ∧ FLS.length y = Ok (FLS.m_end x - 1)
        ∧ FLS.content y
          = take (Z.to_nat (FLS.m_end x - 1)) (FLS.content x)
        ∧ FLS.m_data y = FLS.m_data x)
  ∧ (FLS.m_end x = 0 → FLS.pop_back x = Abort).
Proof.
  split.
  - intros He. eexists. split; [by apply pop_back_ok |].
    split; [apply length_Ok; simpl; lia |]. split; [| done].
    unfold FLS.content. simpl. rewrite take_take. f_equal. lia.
  - intros H0. unfold FLS.pop_back, FLS.size.
    rewrite length_in_range by (rewrite H0; done). by rewrite H0.
Qed.

Lemma pop_back_spec_witness :
  (∃ y, FLS.pop_back (built [65; 66] 2) = Ok y ∧ FLS.length y = Ok (2 - 1)
        ∧ FLS.content y
          = take (Z.to_nat (2 - 1)) (FLS.content (built [65; 66] 2))
        ∧ FLS.m_data y = FLS.m_data (built [65; 66] 2))
  ∧ FLS.pop_back (built [] 0) = Abort.
Proof.
  split.
  - apply (proj1 (pop_back_spec (built [65; 66] 2))).
    unfold FLS.maxSize. simpl. lia.
  - apply (proj2 (pop_back_spec (built [] 0))). reflexivity.
Defined.

(** X13: [pop_back()] followed by [push_back] of the character that was
    removed gives back a string that compares equal to the original, with
    its sentinel in place. *)
Theorem pop_back_push_back (x : FLS.t) (l : list Z) (c : Z) :
  FLS.wf x → FLS.content x = l ++ [c] →
  ∃ y z, FLS.pop_back x = Ok y ∧ FLS.push_back y c = Ok z
         ∧ FLS.op_eq z x = Ok true ∧ FLS.sentinel_ok z.
Proof.
  intros Hwf Hc. pose proof (wf_content_length x Hwf) as Hlen.
  rewrite Hc, length_app in Hlen. simpl in Hlen.
  destruct Hwf as [Ha He].
  set (y := FLS.mk (FLS.m_data x) (FLS.m_end x - 1)).
  assert (FLS.array_ok y) as Hay by done.
  assert (0 <= FLS.m_end y < FLS.maxSize - 1) as Hey by (simpl; lia).
  exists y, (pushed y c).
  split; [apply pop_back_ok; lia |].
  split; [rewrite push_back_append_char by lia; by apply append_char_pushed |].
  split; [| by apply pushed_sentinel].
  pose proof (pushed_wf y c Hay Hey) as [Hap Hep].
  rewrite op_eq_content; try done; try lia.
  rewrite bool_decide_eq_true_2; [done |].
  rewrite pushed_content by done. rewrite Hc. f_equal.
  unfold FLS.content, y. simpl.
  replace (take (Z.to_nat (FLS.m_end x - 1)) (FLS.m_data x))
    with (take (Z.to_nat (FLS.m_end x - 1)) (FLS.content x)).
  - rewrite Hc. apply take_app_length'. lia.
  - unfold FLS.content. rewrite take_take. f_equal. lia.
Qed.

Lemma pop_back_push_back_witness :
  ∃ y z, FLS.pop_back (built [65; 66] 2) = Ok y ∧ FLS.push_back y 66 = Ok z
         ∧ FLS.op_eq z (built [65; 66] 2) = Ok true ∧ FLS.sentinel_ok z.
Proof.
  apply (pop_back_push_back (built [65; 66] 2) [65] 66).
  - split; [reflexivity | unfold FLS.maxSize; simpl; lia].
  - reflexivity.
Defined.

(** X14: [clear()] never aborts, even on a corrupt cursor: it returns the
    empty string, which compares equal to a default-constructed one, and
    touches no cell of the array. *)
Theorem clear_spec (x : FLS.t) :
  FLS.array_ok x →
  ∃ y d, FLS.clear x = Ok y ∧ FLS.length y = Ok 0 ∧ FLS.empty y = Ok true
         ∧ FLS.content y = [] ∧ FLS.m_data y = FLS.m_data x
         ∧ FLS.ctor_default = Ok d ∧ FLS.op_eq y d = Ok true.
Proof.
  intros Ha. eexists _, _. split; [reflexivity |].
  split; [reflexivity |]. split; [reflexivity |]. split; [reflexivity |].
  split; [reflexivity |]. split; [reflexivity |].
  rewrite op_eq_content; try done; unfold FLS.maxSize; simpl; lia.
Qed.

Lemma clear_spec_witness :
  ∃ y d, FLS.clear (FLS.mk FLS.memset0 (-1)) = Ok y
         ∧ FLS.length y = Ok 0 ∧ FLS.empty y = Ok true
         ∧ FLS.content y = []
         ∧ FLS.m_data y = FLS.m_data (FLS.mk FLS.memset0 (-1))
         ∧ FLS.ctor_default = Ok d ∧ FLS.op_eq y d = Ok true.
Proof. apply (clear_spec (FLS.mk FLS.memset0 (-1)) eq_refl). Defined.

(** ** What the mutators keep *)

(** X15: from a string in a state the public operations build, with its
    sentinel in place, whatever [push_back], [+=] and [erase] at a held
    position return is again such a string, sentinel included; what
    [pop_back] and [clear] return still has its cursor inside the array
    with room for the sentinel (the cell itself they leave stale). *)
Theorem mutators_keep_wf (x : FLS.t) :
  FLS.wf x → FLS.sentinel_ok x →
  (∀ c y, FLS.push_back x c = Ok y → FLS.wf y ∧ FLS.sentinel_ok y)
  ∧ (∀ c y, FLS.append_char x c = Ok y → FLS.wf y ∧ FLS.sentinel_ok y)
  ∧ (∀ i y, 0 <= i < FLS.m_end x → FLS.erase x i = Ok y →
       FLS.wf y ∧ FLS.sentinel_ok y)
  ∧ (∀ y, FLS.pop_back x = Ok y → FLS.wf y)
  ∧ (∀ y, FLS.clear x = Ok y → FLS.wf y).
Proof.
  intros Hwf Hs. pose proof Hwf as [Ha He].
  assert (∀ c y, FLS.append_char x c = Ok y → FLS.wf y ∧ FLS.sentinel_ok y)
    as Happ.
  { intros c y Hy. destruct (Z.lt_ge_cases (FLS.m_end x) (FLS.maxSize - 1)).
    - rewrite append_char_pushed in Hy by (done || lia). injection Hy as <-.
      split; [apply pushed_wf | apply pushed_sentinel]; done || lia.
    - by rewrite append_char_full in Hy. }
  split; [| split; [done |]; split; [| split]].
  - intros c y Hy. rewrite push_back_append_char in Hy by done. eauto.
  - intros i y Hi Hy. rewrite erase_erased in Hy by (done || lia).
    injection Hy as <-.
    split; [by apply erased_wf | by apply erased_sentinel].
  - intros y Hy. destruct (Z.lt_ge_cases 0 (FLS.m_end x)).
    + rewrite pop_back_ok in Hy by lia. injection Hy as <-.
      split; [done | simpl; lia].
    + assert (FLS.m_end x = 0) as H0 by lia.
      unfold FLS.pop_back, FLS.size in Hy.
      rewrite length_in_range in Hy by lia. by rewrite H0 in Hy.
  - intros y [= <-]. split; [done | simpl; unfold FLS.maxSize; lia].
Qed.

Lemma mutators_keep_wf_witness :
  (∀ c y, FLS.push_back (built [65; 66] 2) c = Ok y →
     FLS.wf y ∧ FLS.sentinel_ok y)
  ∧ (∀ c y, FLS.append_char (built [65; 66] 2) c = Ok y →
       FLS.wf y ∧ FLS.sentinel_ok y)
  ∧ (∀ i y, 0 <= i < FLS.m_end (built [65; 66] 2) →
       FLS.erase (built [65; 66] 2) i = Ok y → FLS.wf y ∧ FLS.sentinel_ok y)
  ∧ (∀ y, FLS.pop_back (built [65; 66] 2) = Ok y → FLS.wf y)
  ∧ (∀ y, FLS.clear (built [65; 66] 2) = Ok y → FLS.wf y).
Proof.
  apply (mutators_keep_wf (built [65; 66] 2)).
  - split; [reflexivity | unfold FLS.maxSize; simpl; lia].
  - split; [simpl; lia | reflexivity].
Defined.

(** ** The array as a C string *)

(** X16: for a string with its sentinel in place and no NUL in its
    content, the array handed out by [constData()] is a C string of
    exactly [length()] characters, and constructing a string from it
    gives back a string that compares equal to the original. *)
Theorem constData_round_trip (x : FLS.t) :
  FLS.wf x → FLS.sentinel_ok x → 0 ∉ FLS.content x →
  FLS.strlen (FLS.constData x) = Ok (FLS.m_end x)
  ∧ ∃ y, FLS.ctor_cstr (FLS.constData x) = Ok y
         ∧ FLS.content y = FLS.content x ∧ FLS.op_eq y x = Ok true.
Proof.
  intros Hwf [_ Hs] Hnul. pose proof Hwf as [Ha He].
  unfold FLS.constData, FLS.array_ok in *.
  assert (FLS.strlen (FLS.m_data x) = Ok (FLS.m_end x)) as Hlen.
  { replace (Ok (FLS.m_end x))
      with (Ok (A:=Z) (Z.of_nat (Z.to_nat (FLS.m_end x)))) by (f_equal; lia).
    apply strlen_first_nul; [done |]. intros j Hj Hj0. apply Hnul.
    apply list_elem_of_lookup. exists j. unfold FLS.content.
    by rewrite lookup_take_lt. }
  split; [done |]. exists (built (FLS.m_data x) (FLS.m_end x)).
  split; [| split; [by apply built_self_content | by apply built_self_eq]].
  unfold FLS.ctor_cstr. rewrite Hlen. cbn [mbind outcome_bind].
  pose proof (ctor_ptr_built (FLS.m_data x) (FLS.m_end x)) as Hb.
  unfold FLS.ctor_ptr in Hb. apply Hb; lia.
Qed.

Lemma constData_round_trip_witness :
  FLS.strlen (FLS.constData (built [65; 66] 2))
    = Ok (FLS.m_end (built [65; 66] 2))
  ∧ ∃ y, FLS.ctor_cstr (FLS.constData (built [65; 66] 2)) = Ok y
         ∧ FLS.content y = FLS.content (built [65; 66] 2)
         ∧ FLS.op_eq y (built [65; 66] 2) = Ok true.
Proof.
  apply (constData_round_trip (built [65; 66] 2)).
  - split; [reflexivity | unfold FLS.maxSize; simpl; lia].
  - split; [simpl; lia | reflexivity].
  - vm_compute. intros H. inversion H as [| ? ? ? H1]; subst.
    inversion H1 as [| ? ? ? H2]; subst. inversion H2.
Defined.

(** ** [operator[]] *)

(** X17: [operator[]] reads the content below [length()] and performs no
    check of its own: an index outside the array is an access outside the
    object, never an abort.  [operator==] is true exactly when the two
    lengths agree and [operator[]] agrees at every index below them. *)
Theorem index_spec (x y : FLS.t) :
  FLS.array_ok x → FLS.array_ok y →
  0 <= FLS.m_end x <= FLS.maxSize → 0 <= FLS.m_end y <= FLS.maxSize →
  (∀ i, 0 <= i < FLS.m_end x →
     ∃ v, FLS.index x i = Ok v ∧ FLS.content x !! Z.to_nat i = Some v)
  ∧ (∀ i, i < 0 ∨ FLS.maxSize <= i → FLS.index x i = Undefined)
  ∧ (FLS.op_eq x y = Ok true ↔
     FLS.m_end x = FLS.m_end y
     ∧ ∀ i, 0 <= i < FLS.m_end x → FLS.index x i = FLS.index y i).
Proof.
  intros Hx Hy Hex Hey. unfold FLS.array_ok in *.
  assert (∀ (z : FLS.t) i, Z.of_nat (List.length (FLS.m_data z)) = FLS.maxSize →
            0 <= i < FLS.m_end z → FLS.m_end z <= FLS.maxSize →
            ∃ v, FLS.index z i = Ok v
                 ∧ FLS.content z !! Z.to_nat i = Some v) as Hidx.
  { intros z i Hz Hi Hmax.
    destruct (lookup_lt_is_Some_2 (FLS.m_data z) (Z.to_nat i)) as [v Hv];
      [lia |].
    exists v. split; [apply load_ok; done || lia |].
    unfold FLS.content. by rewrite lookup_take_lt by lia. }
  split; [intros i Hi; apply Hidx; done || lia |]. split.
  - intros i Hi. unfold FLS.index, load.
    destruct (Z.leb_spec 0 i), (Z.ltb_spec i (Z.of_nat (List.length (FLS.m_data x))));
      simpl; done || lia.
  - rewrite op_eq_content by done. split.
    + intros [= Heq%bool_decide_eq_true].
      pose proof (content_length x) as Lx. pose proof (content_length y) as Ly.
      assert (FLS.m_end x = FLS.m_end y) as He
        by (rewrite <- Lx, <- Ly by lia; by rewrite Heq).
      split; [done |]. intros i Hi.
      destruct (Hidx x i Hx) as (v & -> & Hv); [lia | lia |].
      destruct (Hidx y i Hy) as (w & -> & Hw); [lia | lia |].
      rewrite Heq in Hv. congruence.
    + intros [He Hall]. f_equal. apply bool_decide_eq_true.
      apply list_eq. intros j. unfold FLS.content. rewrite !lookup_take.
      rewrite <- He. case_decide as Hj; [| done].
      destruct (Hidx x (Z.of_nat j) Hx) as (v & Hv & Hcv); [lia | lia |].
      destruct (Hidx y (Z.of_nat j) Hy) as (w & Hw & Hcw); [lia | lia |].
      rewrite Hall, Hw in Hv by lia. injection Hv as ->.
      unfold FLS.content in Hcv, Hcw. rewrite Nat2Z.id in Hcv, Hcw.
      rewrite lookup_take_lt in Hcv, Hcw by lia. congruence.
Qed.

Lemma index_spec_witness :
  (∃ v, FLS.index (built [65; 66] 2) 1 = Ok v
        ∧ FLS.content (built [65; 66] 2) !! Z.to_nat 1 = Some v)
  ∧ FLS.index (built [65; 66] 2) 40 = Undefined.
Proof.
  destruct (index_spec (built [65; 66] 2) (built [65; 66] 2) eq_refl eq_refl)
    as (Hin & Hout & _); [unfold FLS.maxSize; simpl; lia.. |].
  split; [apply Hin; simpl; lia | apply Hout; unfold FLS.maxSize; lia].
Defined.

(** ** The default-constructed string *)

(** X18: [FixedLengthString()] is the empty string; it is a unit of
    [operator+] up to [==] on both sides, and no string is below it. *)
Theorem ctor_default_unit (s : FLS.t) :
  FLS.wf s →
  ∃ d y z, FLS.ctor_default = Ok d
           ∧ FLS.length d = Ok 0 ∧ FLS.empty d = Ok true
           ∧ FLS.plus d s = Ok y ∧ FLS.op_eq y s = Ok true
           ∧ FLS.plus s d = Ok z ∧ FLS.op_eq z s = Ok true
           ∧ FLS.op_lt s d = Ok false.
Proof.
  intros Hs. pose proof Hs as [Has Hes].
  set (d := FLS.mk FLS.memset0 0).
  assert (FLS.wf d) as Hd by (split; [done | unfold FLS.maxSize; simpl; lia]).
  destruct (copy_holds d Hd) as (d' & Hcd & Hwd & _ & Hcd').
  pose proof (wf_content_length d' Hwd) as Ld. rewrite Hcd' in Ld.
  destruct (copy_holds s Hs) as (s' & Hcs & Hws & _ & Hcs').
  pose proof (wf_content_length s' Hws) as Ls.
  rewrite Hcs', (wf_content_length s Hs) in Ls.
  destruct (append_holds d' s) as (y & Hy & Hwy & _ & Hcy);
    [done | done | lia | simpl in Ld; lia |].
  destruct (append_holds s' d) as (z & Hz & Hwz & _ & Hcz);
    [done | done | simpl; lia | simpl; lia |].
  exists d, y, z. unfold FLS.plus. rewrite Hcd, Hcs.
  cbn [mbind outcome_bind]. rewrite Hy, Hz.
  destruct Hwy as [? ?], Hwz as [? ?], Hd as [? ?].
  repeat (split; [done |]).
  split; [| split; [done | split]].
  - rewrite op_eq_content by (done || lia).
    by rewrite Hcy, Hcd', bool_decide_eq_true_2.
  - rewrite op_eq_content by (done || lia).
    rewrite Hcz, Hcs'. change (FLS.content d) with (@nil Z).
    by rewrite app_nil_r, bool_decide_eq_true_2.
  - unfold FLS.op_lt. rewrite compare_lex by (done || lia).
    change (FLS.content d) with (@nil Z). cbn [mbind outcome_bind].
    by destruct (FLS.content s).
Qed.

Lemma ctor_default_unit_witness :
  ∃ d y z, FLS.ctor_default = Ok d
           ∧ FLS.length d = Ok 0 ∧ FLS.empty d = Ok true
           ∧ FLS.plus d (built [65; 66] 2) = Ok y
           ∧ FLS.op_eq y (built [65; 66] 2) = Ok true
           ∧ FLS.plus (built [65; 66] 2) d = Ok z
           ∧ FLS.op_eq z (built [65; 66] 2) = Ok true
           ∧ FLS.op_lt (built [65; 66] 2) d = Ok false.
Proof.
  apply (ctor_default_unit (built [65; 66] 2)).
  split; [reflexivity | unfold FLS.maxSize; simpl; lia].
Defined.

(** ** The rack's inline members *)

Lemma assign_corrupt (this s : FLS.t) :
  FLS.m_end s < 0 ∨ FLS.maxSize < FLS.m_end s →
  FLS.assign false this s = Abort.
Proof.
  intros He. rewrite assign_as_copy. unfold FLS.ctor_copy, FLS.size.
  by rewrite (proj1 (checks_fire s He)).
Qed.

(** X19: [setTiles(t)] replaces the rack's buffer by a copy of [t],
    whatever the rack held: [tiles()] then compares equal to [t] and
    [empty()] tells whether [t] is empty; [Rack(t)] builds the same rack;
    [Rack()] is empty; a [t] with a corrupt cursor makes both abort. *)
Theorem rack_setTiles_tiles (r : Rack.t) (t : FLS.t) :
  (FLS.wf t →
   ∃ r', Rack.setTiles false r t = Ok r' ∧ Rack.ctor_tiles t = Ok r'
         ∧ FLS.content (Rack.tiles r') = FLS.content t
         ∧ FLS.op_eq (Rack.tiles r') t = Ok true
         ∧ Rack.empty r' = Ok (FLS.m_end t =? 0))
  ∧ (FLS.m_end t < 0 ∨ FLS.maxSize < FLS.m_end t →
     Rack.setTiles false r t = Abort ∧ Rack.ctor_tiles t = Abort)
  ∧ (∃ r0, Rack.ctor_default = Ok r0 ∧ Rack.empty r0 = Ok true
           ∧ FLS.content (Rack.tiles r0) = []).
Proof.
  split; [| split].
  - intros Hwf. exists (Rack.mk (built (FLS.m_data t) (FLS.m_end t))).
    unfold Rack.ctor_tiles, Rack.setTiles, FLS.ctor_default.
    cbn [mbind outcome_bind Rack.m_tiles].
    rewrite !assign_built by done. cbn [mbind outcome_bind].
    split; [done |]. split; [done |]. unfold Rack.tiles, Rack.empty.
    cbn [Rack.m_tiles].
    split; [by apply built_self_content |].
    split; [by apply built_self_eq |].
    unfold FLS.empty. rewrite length_in_range; [done |].
    destruct Hwf as [_ ?]. simpl. lia.
  - intros He. unfold Rack.ctor_tiles, Rack.setTiles, FLS.ctor_default.
    cbn [mbind outcome_bind Rack.m_tiles].
    by rewrite !assign_corrupt by done.
  - eexists. split; [vm_compute; reflexivity |]. by split.
Qed.

Lemma rack_setTiles_tiles_witness :
  (∃ r', Rack.setTiles false (Rack.mk (built [1; 2; 3] 3)) (built [65; 66] 2)
           = Ok r'
         ∧ Rack.ctor_tiles (built [65; 66] 2) = Ok r'
         ∧ FLS.content (Rack.tiles r') = FLS.content (built [65; 66] 2)
         ∧ FLS.op_eq (Rack.tiles r') (built [65; 66] 2) = Ok true
         ∧ Rack.empty r' = Ok (2 =? 0))
  ∧ (Rack.setTiles false (Rack.mk (built [1; 2; 3] 3)) (FLS.mk FLS.memset0 41)
       = Abort
     ∧ Rack.ctor_tiles (FLS.mk FLS.memset0 41) = Abort).
Proof.
  split.
  - apply (proj1 (rack_setTiles_tiles (Rack.mk (built [1; 2; 3] 3))
                    (built [65; 66] 2))).
    split; [reflexivity | unfold FLS.maxSize; simpl; lia].
  - apply (proj1 (proj2 (rack_setTiles_tiles (Rack.mk (built [1; 2; 3] 3))
                           (FLS.mk FLS.memset0 41)))).
    right. unfold FLS.maxSize. simpl. lia.
Defined.

(** X20: copy construction, copy assignment and move assignment of a
    rack all produce the same rack from a valid source, whatever the
    destination held: its tiles compare equal to the source's and the
    source is returned as it was; assigning a rack to itself is a no-op;
    a source with a corrupt cursor makes all three abort. *)
Theorem rack_assign_spec (this other : Rack.t) :
  (FLS.wf (Rack.m_tiles other) →
   ∃ r', Rack.ctor_copy other = Ok r'
         ∧ Rack.assign false this other = Ok r'
         ∧ Rack.assign_move false this other = Ok (r', other)
         ∧ FLS.content (Rack.m_tiles r') = FLS.content (Rack.m_tiles other)
         ∧ FLS.op_eq (Rack.m_tiles r') (Rack.m_tiles other) = Ok true)
  ∧ Rack.assign true this other = Ok this
  ∧ Rack.assign_move true this other = Ok (this, other)
  ∧ (FLS.m_end (Rack.m_tiles other) < 0
     ∨ FLS.maxSize < FLS.m_end (Rack.m_tiles other) →
     Rack.ctor_copy other = Abort
     ∧ Rack.assign false this other = Abort
     ∧ Rack.assign_move false this other = Abort).
Proof.
  assert (FLS.wf (FLS.mk FLS.memset0 0)) as Hd
    by (split; [done | unfold FLS.maxSize; simpl; lia]).
  split; [| split; [done | split; [done |]]].
  - intros Hwf.
    exists (Rack.mk (built (FLS.m_data (Rack.m_tiles other))
                       (FLS.m_end (Rack.m_tiles other)))).
    unfold Rack.ctor_copy, Rack.assign, Rack.assign_move, FLS.ctor_default.
    cbn [mbind outcome_bind].
    rewrite (assign_built (FLS.mk FLS.memset0 0) (FLS.mk FLS.memset0 0))
      by done.
    rewrite (assign_built (Rack.m_tiles this) (FLS.mk FLS.memset0 0))
      by done.
    cbn [mbind outcome_bind].
    repeat (rewrite assign_built by done; cbn [mbind outcome_bind]).
    split; [done |]. split; [done |]. split; [done |].
    split; [by apply built_self_content | by apply built_self_eq].
  - intros He.
    unfold Rack.ctor_copy, Rack.assign, Rack.assign_move, FLS.ctor_default.
    cbn [mbind outcome_bind].
    rewrite (assign_built (FLS.mk FLS.memset0 0) (FLS.mk FLS.memset0 0))
      by done.
    rewrite (assign_built (Rack.m_tiles this) (FLS.mk FLS.memset0 0))
      by done.
    cbn [mbind outcome_bind].
    repeat (rewrite assign_corrupt by done; cbn [mbind outcome_bind]).
    done.
Qed.

Lemma rack_assign_spec_witness :
  (∃ r', Rack.ctor_copy (Rack.mk (built [65; 66] 2)) = Ok r'
         ∧ Rack.assign false (Rack.mk (built [1] 1))
             (Rack.mk (built [65; 66] 2)) = Ok r'
         ∧ Rack.assign_move false (Rack.mk (built [1] 1))
             (Rack.mk (built [65; 66] 2))
           = Ok (r', Rack.mk (built [65; 66] 2))
         ∧ FLS.content (Rack.m_tiles r') = FLS.content (built [65; 66] 2)
         ∧ FLS.op_eq (Rack.m_tiles r') (built [65; 66] 2) = Ok true)
  ∧ (Rack.ctor_copy (Rack.mk (FLS.mk FLS.memset0 41)) = Abort
     ∧ Rack.assign false (Rack.mk (built [1] 1))
         (Rack.mk (FLS.mk FLS.memset0 41)) = Abort
     ∧ Rack.assign_move false (Rack.mk (built [1] 1))
         (Rack.mk (FLS.mk FLS.memset0 41)) = Abort).
Proof.
  split.
  - apply (proj1 (rack_assign_spec (Rack.mk (built [1] 1))
                    (Rack.mk (built [65; 66] 2)))).
    split; [reflexivity | unfold FLS.maxSize; simpl; lia].
  - apply (proj2 (proj2 (proj2 (rack_assign_spec (Rack.mk (built [1] 1))
                                   (Rack.mk (FLS.mk FLS.memset0 41)))))).
    right. unfold FLS.maxSize. simpl. lia.
Defined.

(** ** The edge of the length checks *)

(** X21: a source whose cursor stands exactly at [m_data + maxSize]
    passes [length()] and the explicit length test of the copy paths
    (both reject only [len > maxSize]); copy construction, move
    construction and copy assignment then write the terminator at index
    [maxSize], one cell past the array. *)
Theorem copy_at_capacity (this s : FLS.t) :
  FLS.array_ok s → FLS.m_end s = FLS.maxSize →
  FLS.length s = Ok FLS.maxSize
  ∧ FLS.ctor_copy s = Undefined
  ∧ FLS.ctor_move s = Undefined
  ∧ FLS.assign false this s = Undefined.
Proof.
  intros Ha He. unfold FLS.array_ok in Ha.
  assert (FLS.ctor_copy s = Undefined) as Hcopy.
  { unfold FLS.ctor_copy, FLS.size.
    rewrite length_in_range by (rewrite He; unfold FLS.maxSize; lia).
    rewrite He. cbn [mbind outcome_bind].
    change (to_int FLS.maxSize) with 40.
    change (if (40 <? 0) || (40 >? 40)
               || (40 >? FLS.QUACKLE_FIXEDSTRING_CAPACITY) then _ else _)
      with (memcpy FLS.memset0 0 (FLS.m_data s) 0 40
            ≫= (λ d, store d 40 0
                     ≫= (λ d', Ok (FLS.mk d' 40)))).
    rewrite memcpy_ok; rewrite ?memset0_length; unfold FLS.maxSize in *;
      try lia.
    cbn [mbind outcome_bind]. unfold store.
    rewrite length_inserts, memset0_length. reflexivity. }
  split; [rewrite <- He; apply length_in_range; unfold FLS.maxSize in *; lia |].
  split; [done |]. split.
  - by rewrite ctor_move_as_copy, Hcopy.
  - by rewrite assign_as_copy.
Qed.

Lemma copy_at_capacity_witness :
  FLS.length (FLS.mk (replicate 40 7) 40) = Ok FLS.maxSize
  ∧ FLS.ctor_copy (FLS.mk (replicate 40 7) 40) = Undefined
  ∧ FLS.ctor_move (FLS.mk (replicate 40 7) 40) = Undefined
  ∧ FLS.assign false (built [1] 1) (FLS.mk (replicate 40 7) 40) = Undefined.
Proof.
  apply (copy_at_capacity (built [1] 1) (FLS.mk (replicate 40 7) 40)
           eq_refl eq_refl).
Defined.

(** X22: [compare] reads both lengths through [size()] first, so an
    operand with a corrupt cursor makes [compare] and the three operators
    abort before any character is compared. *)
Theorem compare_corrupt (a b : FLS.t) :
  (FLS.m_end a < 0 ∨ FLS.maxSize < FLS.m_end a)
  ∨ (0 <= FLS.m_end a <= FLS.maxSize
     ∧ (FLS.m_end b < 0 ∨ FLS.maxSize < FLS.m_end b)) →
  FLS.compare a b = Abort ∧ FLS.op_eq a b = Abort
  ∧ FLS.op_ne a b = Abort ∧ FLS.op_lt a b = Abort.
Proof.
  intros H.
  assert (FLS.compare a b = Abort) as Hc.
  { unfold FLS.compare, FLS.size. destruct H as [Ha | [Ha Hb]].
    - by rewrite (proj1 (checks_fire a Ha)).
    - rewrite (length_in_range a Ha). cbn [mbind outcome_bind].
      by rewrite (proj1 (checks_fire b Hb)). }
  unfold FLS.op_eq, FLS.op_ne, FLS.op_lt. by rewrite Hc.
Qed.

Lemma compare_corrupt_witness :
  FLS.compare (built [1] 1) (FLS.mk FLS.memset0 (-1)) = Abort
  ∧ FLS.op_eq (built [1] 1) (FLS.mk FLS.memset0 (-1)) = Abort
  ∧ FLS.op_ne (built [1] 1) (FLS.mk FLS.memset0 (-1)) = Abort
  ∧ FLS.op_lt (built [1] 1) (FLS.mk FLS.memset0 (-1)) = Abort.
Proof.
  apply (compare_corrupt (built [1] 1) (FLS.mk FLS.memset0 (-1))).
  right. split; [unfold FLS.maxSize; simpl; lia | left; simpl; lia].
Defined.
